(** * Readability: a shallow embedding of the article extractor

    The functions below are transcribed from the JavaScript of
    [Readability.js] as it is quoted in the analysis documents of the
    repository ([docs/html-analyzing-and-scoring/*.md] and the three
    unnamed parts on document preparation, the retry logic and the final
    content preparation).

    Conventions.
    - A JavaScript string is a list of UTF-16 code units ([jsstring]).
    - A JavaScript number that holds a length or a bit mask is a [Z] or a
      [nat]; a score or a ratio is a rational [Q] (JavaScript evaluates the
      same expressions in binary64).
    - Code that can throw returns a [completion]. *)

From Stdlib Require Import ZArith NArith QArith Lqa List Bool Lia Ascii String.
From stdpp Require Import base option list strings gmap.
Import ListNotations.

Set Warnings "-register-all".

(* ================================================================== *)
(** * JavaScript strings *)
(* ================================================================== *)

(** A string is the sequence of its UTF-16 code units; [length] is the
    [length] property. *)
Definition jsstring : Type := list N.

(** A literal of the source, written in ASCII. *)
Definition lit (s : string) : jsstring :=
  map N_of_ascii (list_ascii_of_string s).

Definition jsstring_eqb (a b : jsstring) : bool := bool_decide (a = b).

(** [str.split(sep)] for a regular expression [sep] that matches exactly
    one code unit: the pieces between the matches, empty ones included. *)
Fixpoint split (sep : N -> bool) (s : jsstring) : list jsstring :=
  match s with
  | [] => [[]]
  | c :: s' =>
      if sep c then [] :: split sep s'
      else match split sep s' with
           | piece :: pieces => (c :: piece) :: pieces
           | [] => [[c]]
           end
  end.

(** The number of matches of a one-code-unit pattern. *)
Definition count_matches (pat : N -> bool) (s : jsstring) : nat :=
  length (List.filter pat s).

Lemma split_length sep s : length (split sep s) = S (count_matches sep s).
Proof.
  unfold count_matches. induction s as [|c s IH]; [done|].
  simpl. destruct (sep c) eqn:E; simpl.
  - by rewrite IH.
  - rewrite <- IH. by destruct (split sep s).
Qed.

(** White space as the pattern [\s] and [String.prototype.trim] see it. *)
Definition isWhiteSpace (c : N) : bool :=
  bool_decide (c ∈ [0x0009; 0x000A; 0x000B; 0x000C; 0x000D; 0x0020; 0x00A0;
                    0x1680; 0x2028; 0x2029; 0x202F; 0x205F; 0x3000; 0xFEFF]%N)
  || ((0x2000 <=? c)%N && (c <=? 0x200A)%N).

(** [s.startsWith(prefix)], that is [s.indexOf(prefix) === 0]. *)
Fixpoint startsWith (prefix s : jsstring) : bool :=
  match prefix, s with
  | [], _ => true
  | p :: prefix', c :: s' => (p =? c)%N && startsWith prefix' s'
  | _ :: _, [] => false
  end.

(** [s.trim()]: [s] without the white space at its two ends. *)
Fixpoint trimStart (s : jsstring) : jsstring :=
  match s with
  | c :: s' => if isWhiteSpace c then trimStart s' else s
  | [] => []
  end.

Fixpoint trimEnd (s : jsstring) : jsstring :=
  match s with
  | c :: s' =>
      match trimEnd s' with
      | [] => if isWhiteSpace c then [] else [c]
      | t => c :: t
      end
  | [] => []
  end.

Definition trim (s : jsstring) : jsstring := trimEnd (trimStart s).

(** Modelled from the spec: [REGEXPS.normalize] is not in the analysed
    sources ("normalize internal whitespace"); [s.replace(normalize, " ")]
    puts one space for every run of two or more white-space characters.
    [in_run] says that the preceding character was part of such a run. *)
Fixpoint normalize_from (in_run : bool) (s : jsstring) : jsstring :=
  match s with
  | [] => []
  | c :: s' =>
      if isWhiteSpace c then
        if in_run then normalize_from true s'
        else match s' with
             | d :: _ =>
                 if isWhiteSpace d then 0x20%N :: normalize_from true s'
                 else c :: normalize_from false s'
             | [] => [c]
             end
      else c :: normalize_from false s'
  end.

Definition normalize (s : jsstring) : jsstring := normalize_from false s.

(** [tag.toUpperCase()] on the ASCII names of tags. *)
Definition upper_ascii (a : ascii) : ascii :=
  let n := nat_of_ascii a in
  if (97 <=? n)%nat && (n <=? 122)%nat then ascii_of_nat (n - 32) else a.

Fixpoint toUpperCase (s : string) : string :=
  match s with
  | EmptyString => EmptyString
  | String a s' => String (upper_ascii a) (toUpperCase s')
  end.

(* ================================================================== *)
(** * The DOM *)
(* ================================================================== *)

(** The annotation [node.readability = { contentScore: ... }]. *)
Record Readability := { contentScore : Q }.

(** A node is a text node or an element with its upper-case tag name, its
    attributes in order, its annotation if it has one, and its child
    nodes. *)
Inductive Node : Type :=
| Text (data : jsstring)
| Elem (tag : string) (attrs : list (string * jsstring))
       (annotation : option Readability) (kids : list Node).

Section node_induction.
Variable P : Node -> Prop.
Hypothesis Htext : forall s, P (Text s).
Hypothesis Helem : forall t a r kids, Forall P kids -> P (Elem t a r kids).

Fixpoint node_induction (n : Node) : P n :=
  match n with
  | Text s => Htext s
  | Elem t a r kids =>
      Helem t a r kids
        ((fix all (l : list Node) : Forall P l :=
            match l with
            | [] => List.Forall_nil P
            | x :: l' => List.Forall_cons P x l' (node_induction x) (all l')
            end) kids)
  end.
End node_induction.

(** [node.nodeType === this.TEXT_NODE] *)
Definition isText (n : Node) : bool :=
  match n with Text _ => true | Elem _ _ _ _ => false end.

Definition isElement (n : Node) : bool := negb (isText n).

(** [node.tagName]; a text node has none. *)
Definition tagName (n : Node) : option string :=
  match n with Text _ => None | Elem t _ _ _ => Some t end.

(** [node.tagName === tag] *)
Definition tagName_is (n : Node) (tag : string) : bool :=
  bool_decide (tagName n = Some tag).

Definition attributes (n : Node) : list (string * jsstring) :=
  match n with Text _ => [] | Elem _ a _ _ => a end.

Definition readability (n : Node) : option Readability :=
  match n with Text _ => None | Elem _ _ r _ => r end.

Definition childNodes (n : Node) : list Node :=
  match n with Text _ => [] | Elem _ _ _ kids => kids end.

(** [node.children]: the child nodes that are elements. *)
Definition children (n : Node) : list Node :=
  List.filter isElement (childNodes n).

(** [node.firstElementChild] *)
Definition firstElementChild (n : Node) : option Node := head (children n).

(** [node.textContent] *)
Fixpoint textContent (n : Node) : jsstring :=
  match n with
  | Text s => s
  | Elem _ _ _ kids => flat_map textContent kids
  end.

(** [element.getAttribute(name)] *)
Fixpoint lookup_attr (name : string) (a : list (string * jsstring))
  : option jsstring :=
  match a with
  | [] => None
  | (k, v) :: a' => if String.eqb k name then Some v else lookup_attr name a'
  end.

Definition getAttribute (n : Node) (name : string) : option jsstring :=
  lookup_attr name (attributes n).

(** The descendants of [n] with tag [tag], in document order:
    [n.getElementsByTagName(tag)]. *)
Fixpoint getElementsByTagName (tag : string) (n : Node) : list Node :=
  match n with
  | Text _ => []
  | Elem _ _ _ kids =>
      flat_map (fun k => (if tagName_is k tag then [k] else [])
                         ++ getElementsByTagName tag k) kids
  end.

(** [this._everyNode(nodeList, fn)] and [this._someNode(nodeList, fn)] are
    [Array.prototype.every] and [some]. *)
Definition _everyNode (nodeList : list Node) (fn : Node -> bool) : bool :=
  forallb fn nodeList.

Definition _someNode (nodeList : list Node) (fn : Node -> bool) : bool :=
  existsb fn nodeList.

(* ================================================================== *)
(** * Retagging: [_setNodeTag] *)
(* ================================================================== *)

Module Retag.

(** [doc.createElement(tag)]: a fresh element without attributes,
    annotation or children; an HTML document upper-cases the tag name. *)
Definition createElement (tag : string) : Node :=
  Elem (toUpperCase tag) [] None [].

(** [replacement.appendChild(child)] *)
Definition appendChild (parent child : Node) : Node :=
  match parent with
  | Text _ => parent
  | Elem t a r kids => Elem t a r (kids ++ [child])
  end.

(** [while (node.firstChild) { replacement.appendChild(node.firstChild); }]
    on the child nodes still in [node]. *)
Fixpoint move_children (remaining : list Node) (replacement : Node) : Node :=
  match remaining with
  | [] => replacement
  | firstChild :: remaining' =>
      move_children remaining' (appendChild replacement firstChild)
  end.

(** [element.setAttributeNode(attr)]: replaces the attribute of that name
    or adds a new last one. *)
Fixpoint set_attr (a : list (string * jsstring)) (attr : string * jsstring)
  : list (string * jsstring) :=
  match a with
  | [] => [attr]
  | (k, v) :: a' =>
      if String.eqb k (fst attr) then attr :: a' else (k, v) :: set_attr a' attr
  end.

Definition setAttributeNode (n : Node) (attr : string * jsstring) : Node :=
  match n with
  | Text _ => n
  | Elem t a r kids => Elem t (set_attr a attr) r kids
  end.

(** [for (i = 0; i < node.attributes.length; i++)
       replacement.setAttributeNode(node.attributes[i].cloneNode());] *)
Fixpoint copy_attributes (from : list (string * jsstring)) (replacement : Node)
  : Node :=
  match from with
  | [] => replacement
  | attr :: from' => copy_attributes from' (setAttributeNode replacement attr)
  end.

Definition set_readability (n : Node) (r : option Readability) : Node :=
  match n with
  | Text _ => n
  | Elem t a _ kids => Elem t a r kids
  end.

(** [_setNodeTag(node, tag)].  [_docJSDOMParser] tells which of the two
    paths runs.  The function is only ever called on elements. *)
Definition _setNodeTag (_docJSDOMParser : bool) (node : Node) (tag : string)
  : Node :=
  match node with
  | Text _ => node
  | Elem _ a r kids =>
      if _docJSDOMParser then
        (* node.localName = tag.toLowerCase();
           node.tagName = tag.toUpperCase(); *)
        Elem (toUpperCase tag) a r kids
      else
        let replacement := createElement tag in
        let replacement := move_children kids replacement in
        (* node.parentNode.replaceChild(replacement, node): see
           [replaceChild] *)
        let replacement :=
          match r with
          | Some _ => set_readability replacement r
          | None => replacement
          end in
        copy_attributes a replacement
  end.

(** [parent.replaceChild(replacement, old)] on the child nodes of the
    parent, [old] being child number [i]. *)
Definition replaceChild (siblings : list Node) (i : nat) (replacement : Node)
  : list Node :=
  <[i := replacement]> siblings.

(** ** Properties *)

Lemma move_children_spec remaining t a r kids :
  move_children remaining (Elem t a r kids) = Elem t a r (kids ++ remaining).
Proof.
  revert kids. induction remaining as [|c rest IH]; intros kids; simpl.
  - by rewrite app_nil_r.
  - rewrite IH. by rewrite <- app_assoc.
Qed.

Lemma set_attr_fresh a attr :
  fst attr ∉ a.*1 -> set_attr a attr = a ++ [attr].
Proof.
  induction a as [|[k v] a IH]; [done|]. simpl. intros Hnot.
  apply not_elem_of_cons in Hnot as [Hne Hnot].
  destruct (String.eqb_spec k (fst attr)) as [->|_]; [done|].
  by rewrite IH.
Qed.

Lemma copy_attributes_spec from t a r kids :
  NoDup ((a ++ from).*1) ->
  copy_attributes from (Elem t a r kids) = Elem t (a ++ from) r kids.
Proof.
  revert a. induction from as [|attr from IH]; intros a Hnd; simpl.
  - by rewrite app_nil_r.
  - rewrite set_attr_fresh.
    + rewrite IH; rewrite <- app_assoc; done.
    + rewrite fmap_app, fmap_cons in Hnd.
      apply NoDup_app in Hnd as (_ & Hdisj & _).
      intros Hin. apply (Hdisj _ Hin). by left.
Qed.

(** The replacement that [_setNodeTag] builds, on either path. *)
Lemma setNodeTag_retags (_docJSDOMParser : bool) (tag : string)
    (t : string) (a : list (string * jsstring)) (r : option Readability)
    (kids : list Node) :
  NoDup (a.*1) ->
  _setNodeTag _docJSDOMParser (Elem t a r kids) tag
  = Elem (toUpperCase tag) a r kids.
Proof.
  intros Hnd. unfold _setNodeTag, createElement.
  destruct _docJSDOMParser; [done|].
  rewrite move_children_spec. simpl app.
  destruct r; simpl; by rewrite copy_attributes_spec.
Qed.

(** C10. Retagging an element keeps its annotation, its attributes with
    their values and order, and its child nodes in order; only the tag
    name changes, on either path, and the replacement takes the place of
    the element among its siblings. *)
Theorem setNodeTag_preserves (_docJSDOMParser : bool) (tag : string)
    (t : string) (a : list (string * jsstring)) (r : option Readability)
    (kids : list Node) (siblings : list Node) (i : nat) :
  NoDup (a.*1) ->
  siblings !! i = Some (Elem t a r kids) ->
  let replacement := _setNodeTag _docJSDOMParser (Elem t a r kids) tag in
  replacement = Elem (toUpperCase tag) a r kids /\
  readability replacement = r /\
  attributes replacement = a /\
  childNodes replacement = kids /\
  replaceChild siblings i replacement !! i = Some replacement /\
  (forall j, j <> i -> replaceChild siblings i replacement !! j = siblings !! j).
Proof.
  intros Hnd Hi replacement.
  assert (Heq : replacement = Elem (toUpperCase tag) a r kids).
  { subst replacement. by apply setNodeTag_retags. }
  rewrite Heq. repeat split; try done.
  - unfold replaceChild. apply list_lookup_insert_eq.
    by eapply lookup_lt_Some.
  - intros j Hj. unfold replaceChild. by apply list_lookup_insert_ne.
Qed.

Lemma setNodeTag_preserves_witness :
  let font := Elem "FONT" [("face"%string, lit "Arial"); ("size"%string, lit "2")]
                   (Some {| contentScore := 7 # 2 |}) [Text (lit "Lorem")] in
  _setNodeTag false font "SPAN" =
    Elem "SPAN" [("face"%string, lit "Arial"); ("size"%string, lit "2")]
         (Some {| contentScore := 7 # 2 |}) [Text (lit "Lorem")].
Proof.
  refine (proj1 (setNodeTag_preserves false "SPAN" "FONT" _ _ _
                   [Text (lit "x"); _] 1 _ eq_refl)).
  apply (bool_decide_unpack _). reflexivity.
Defined.

End Retag.

(* ================================================================== *)
(** * Single-cell tables ([_prepArticle]) *)
(* ================================================================== *)

(** [PHRASING_ELEMS] *)
Definition PHRASING_ELEMS : list string :=
  ["ABBR"; "AUDIO"; "B"; "BDO"; "BR"; "BUTTON"; "CITE"; "CODE"; "DATA";
   "DATALIST"; "DFN"; "EM"; "EMBED"; "I"; "IMG"; "INPUT"; "KBD"; "LABEL";
   "MARK"; "MATH"; "METER"; "NOSCRIPT"; "OBJECT"; "OUTPUT"; "PROGRESS";
   "Q"; "RUBY"; "SAMP"; "SCRIPT"; "SELECT"; "SMALL"; "SPAN"; "STRONG";
   "SUB"; "SUP"; "TEXTAREA"; "TIME"; "VAR"; "WBR"]%string.

(** [_isPhrasingContent(node)] *)
Fixpoint _isPhrasingContent (node : Node) : bool :=
  match node with
  | Text _ => true
  | Elem t _ _ kids =>
      bool_decide (t ∈ PHRASING_ELEMS)
      || (bool_decide (t ∈ ["A"; "DEL"; "INS"]%string)
          && forallb _isPhrasingContent kids)
  end.

(** A sample of [REGEXPS.hasContent], which the analysed sources use and
    do not define: the text ends in a code unit that is not white space. *)
Definition ends_in_non_space (s : jsstring) : bool :=
  match last s with
  | Some c => negb (isWhiteSpace c)
  | None => false
  end.

Module Tables.

Section SingleCell.

(** [this.REGEXPS.hasContent.test]. *)
Variable hasContent : jsstring -> bool.

Variable _docJSDOMParser : bool.

(** [_hasSingleTagInsideElement(element, tag)] *)
Definition _hasSingleTagInsideElement (element : Node) (tag : string) : bool :=
  if negb (length (children element) =? 1)%nat
     || negb (from_option (fun c => tagName_is c tag) false
                          (children element !! 0%nat))
  then false
  else negb (_someNode (childNodes element)
               (fun node => isText node && hasContent (textContent node))).

(** The body of the callback run on each [table]: the element by which
    the table is replaced, if it is. *)
Definition convert_table (table : Node) : option Node :=
  tbody ← (if _hasSingleTagInsideElement table "TBODY"
           then firstElementChild table else Some table);
  if _hasSingleTagInsideElement tbody "TR" then
    row ← firstElementChild tbody;
    if _hasSingleTagInsideElement row "TD" then
      cell ← firstElementChild row;
      Some (Retag._setNodeTag _docJSDOMParser cell
              (if _everyNode (childNodes cell) _isPhrasingContent
               then "P" else "DIV"))
    else None
  else None.

(** The callback on the table that is child number [i] of its parent:
    [table.parentNode.replaceChild(cell, table)] when the table
    converts. *)
Definition flatten_table_at (siblings : list Node) (i : nat) : list Node :=
  match siblings !! i with
  | Some table =>
      match convert_table table with
      | Some cell => Retag.replaceChild siblings i cell
      | None => siblings
      end
  | None => siblings
  end.

(** ** The shapes of the claim *)

(** [parent] has exactly one element child, [child], and its tag is [tag]. *)
Definition only_child (parent : Node) (tag : string) (child : Node) : Prop :=
  children parent = [child] /\ tagName child = Some tag.

(** No text node directly inside [parent] has content. *)
Definition no_stray_text (parent : Node) : Prop :=
  forall s, Text s ∈ childNodes parent -> hasContent s = false.

Lemma hasSingleTagInsideElement_true parent tag child :
  only_child parent tag child -> no_stray_text parent ->
  _hasSingleTagInsideElement parent tag = true /\
  firstElementChild parent = Some child.
Proof.
  intros [Hkids Htag] Hstray.
  unfold _hasSingleTagInsideElement, firstElementChild.
  rewrite Hkids. simpl. unfold tagName_is.
  rewrite bool_decide_eq_true_2 by done. simpl. split; [|done].
  apply negb_true_iff, not_true_iff_false. unfold _someNode.
  rewrite existsb_exists. intros ([s|] & Hin & Hx); [|done].
  simpl in Hx. rewrite (Hstray s) in Hx; [done|].
  by apply list_elem_of_In.
Qed.

(** C8 (as amended). A table whose only element child is a [tbody] whose
    only element child is a [tr] whose only element child is a [td], with
    no text of content directly inside the table, the [tbody] or the [tr],
    is replaced by the [td] retagged to [P] when all child nodes of the
    cell are phrasing content and to [DIV] otherwise. *)
Theorem single_cell_table_is_flattened (siblings : list Node) (i : nat)
    (table tbody row : Node) (a : list (string * jsstring))
    (r : option Readability) (kids : list Node) :
  siblings !! i = Some table ->
  only_child table "TBODY" tbody -> no_stray_text table ->
  only_child tbody "TR" row -> no_stray_text tbody ->
  only_child row "TD" (Elem "TD" a r kids) -> no_stray_text row ->
  NoDup (a.*1) ->
  flatten_table_at siblings i =
  <[i := Elem (if forallb _isPhrasingContent kids then "P" else "DIV") a r kids]>
    siblings.
Proof.
  intros Hi Htable Ht Htbody Hb Hrow Hr Hnd.
  unfold flatten_table_at, convert_table. rewrite Hi.
  destruct (hasSingleTagInsideElement_true _ _ _ Htable Ht) as [-> ->].
  simpl. destruct (hasSingleTagInsideElement_true _ _ _ Htbody Hb) as [-> ->].
  simpl. destruct (hasSingleTagInsideElement_true _ _ _ Hrow Hr) as [-> ->].
  cbn -[Retag._setNodeTag]. unfold _everyNode, Retag.replaceChild.
  rewrite Retag.setNodeTag_retags by done.
  by destruct (forallb _isPhrasingContent kids).
Qed.

End SingleCell.

(** The table [<table><tbody><tr><td><em>Hi</em></td></tr></tbody></table>]. *)
Definition hi_cell : Node := Elem "TD" [] None [Elem "EM" [] None [Text (lit "Hi")]].
Definition hi_row : Node := Elem "TR" [] None [hi_cell].
Definition hi_tbody : Node := Elem "TBODY" [] None [hi_row].
Definition hi_table : Node := Elem "TABLE" [] None [hi_tbody].

Lemma single_cell_table_witness :
  flatten_table_at ends_in_non_space false [hi_table] 0 =
  [Elem "P" [] None [Elem "EM" [] None [Text (lit "Hi")]]].
Proof.
  apply (single_cell_table_is_flattened ends_in_non_space false
           [hi_table] 0 hi_table hi_tbody hi_row [] None
           [Elem "EM" [] None [Text (lit "Hi")]]).
  - reflexivity.
  - split; reflexivity.
  - intros s Hs. apply list_elem_of_In in Hs. simpl in Hs.
    destruct Hs as [Hs|[]]. discriminate Hs.
  - split; reflexivity.
  - intros s Hs. apply list_elem_of_In in Hs. simpl in Hs.
    destruct Hs as [Hs|[]]. discriminate Hs.
  - split; reflexivity.
  - intros s Hs. apply list_elem_of_In in Hs. simpl in Hs.
    destruct Hs as [Hs|[]]. discriminate Hs.
  - constructor.
Defined.

(** The same table with the letter x directly inside [<table>]. *)
Definition stray_table : Node :=
  Elem "TABLE" [] None [Text (lit "x"); hi_tbody].

(** C8, counterexample. [stray_table] contains exactly one [tbody], which
    contains exactly one [tr], which contains exactly one [td]; the
    callback leaves it in place. *)
Lemma single_cell_table_with_text_stays :
  only_child stray_table "TBODY" hi_tbody /\
  only_child hi_tbody "TR" hi_row /\
  only_child hi_row "TD" hi_cell /\
  convert_table ends_in_non_space false stray_table = None /\
  flatten_table_at ends_in_non_space false [stray_table] 0 = [stray_table].
Proof. repeat split. Qed.

End Tables.

(* ================================================================== *)
(** * Code that can throw *)
(* ================================================================== *)

(** The completion of an expression: a value, or a thrown exception. *)
Inductive completion (A : Type) : Type :=
| Normal (a : A)
| Thrown (ex : jsstring).
Arguments Normal {A} a.
Arguments Thrown {A} ex.

(** [try { return body } catch (ex) { } return fallback;] *)
Definition try_return {A : Type} (body : completion A) (fallback : A)
  : completion A :=
  match body with
  | Normal a => Normal a
  | Thrown _ => Normal fallback
  end.

Definition completion_map {A B : Type} (f : A -> B) (c : completion A)
  : completion B :=
  match c with
  | Normal a => Normal (f a)
  | Thrown ex => Thrown ex
  end.

(* ================================================================== *)
(** * Relative URIs ([_fixRelativeUris]) *)
(* ================================================================== *)

Module Uris.

Section FixRelativeUris.

(** [this._doc.baseURI] and [this._doc.documentURI]. *)
Variables baseURI documentURI : jsstring.

(** [new URL(uri, base).href] of the host, which throws a [TypeError] on
    a string it cannot resolve. *)
Variable URL_href : jsstring -> jsstring -> completion jsstring.

(** [uri.charAt(0)] *)
Definition charAt (s : jsstring) (i : nat) : jsstring :=
  match s !! i with
  | Some c => [c]
  | None => []
  end.

(** [toAbsoluteURI(uri)] *)
Definition toAbsoluteURI (uri : jsstring) : completion jsstring :=
  (* Leave hash links alone if the base URI matches the document URI: *)
  if jsstring_eqb baseURI documentURI && jsstring_eqb (charAt uri 0) (lit "#")
  then Normal uri
  else
    (* Otherwise, resolve against base URI: *)
    try_return (URL_href uri baseURI) uri.

(** What the callback on links does with the [href] attribute of a link
    that is not a [javascript:] link: the new value of the attribute, if
    it is set. *)
Definition fix_href (href : option jsstring) : completion (option jsstring) :=
  match href with
  | Some (c :: h) =>                                   (* if (href) *)
      if startsWith (lit "javascript:") (c :: h) then Normal href
      else completion_map Some (toAbsoluteURI (c :: h))
  | _ => Normal href
  end.

(** The callback given to [srcset.replace(this.REGEXPS.srcsetUrl, ...)]:
    [toAbsoluteURI(p1) + (p2 || "") + p3]. *)
Definition srcset_callback (p1 : jsstring) (p2 : option jsstring)
  (p3 : jsstring) : completion jsstring :=
  completion_map (fun u => u ++ default [] p2 ++ p3) (toAbsoluteURI p1).

(** C6. Rewriting a URI never throws; when the URL cannot be built the
    string is kept as it is, and so is a string that starts with [#] when
    [baseURI] equals [documentURI].  The same holds of the [href] of a
    link and of each URL of a [srcset]. *)
Theorem toAbsoluteURI_never_throws (uri : jsstring) :
  (exists v, toAbsoluteURI uri = Normal v) /\
  ((exists ex, URL_href uri baseURI = Thrown ex) ->
     toAbsoluteURI uri = Normal uri) /\
  (baseURI = documentURI -> startsWith (lit "#") uri = true ->
     toAbsoluteURI uri = Normal uri) /\
  (exists v, fix_href (Some uri) = Normal v) /\
  (forall p2 p3,
     (exists v, srcset_callback uri p2 p3 = Normal v) /\
     ((exists ex, URL_href uri baseURI = Thrown ex) ->
        srcset_callback uri p2 p3 = Normal (uri ++ default [] p2 ++ p3))).
Proof.
  assert (Hnt : exists v, toAbsoluteURI uri = Normal v).
  { unfold toAbsoluteURI, try_return.
    destruct (_ && _); [by eexists|].
    destruct (URL_href uri baseURI); by eexists. }
  assert (Hfail : (exists ex, URL_href uri baseURI = Thrown ex) ->
                  toAbsoluteURI uri = Normal uri).
  { intros [ex Hex]. unfold toAbsoluteURI. rewrite Hex.
    by destruct (_ && _). }
  split; [done|]. split; [done|]. split; [|split].
  - intros Hbase Hhash. unfold toAbsoluteURI, jsstring_eqb.
    rewrite (bool_decide_eq_true_2 _ Hbase).
    change (lit "#") with [35%N] in *.
    destruct uri as [|c u]; [done|]. cbn -[N.eqb] in Hhash.
    apply andb_true_iff in Hhash as [Hc _]. apply N.eqb_eq in Hc as <-.
    by rewrite bool_decide_eq_true_2.
  - unfold fix_href. destruct uri as [|c h]; [by eexists|].
    destruct (startsWith _ _); [by eexists|].
    destruct Hnt as [v ->]. by eexists.
  - intros p2 p3. unfold srcset_callback. split.
    + destruct Hnt as [v ->]. by eexists.
    + intros Hex. by rewrite Hfail.
Qed.

End FixRelativeUris.

End Uris.

(* ================================================================== *)
(** * The byline of the metadata ([_getArticleMetadata]) *)
(* ================================================================== *)

Module Metadata.

Declare Scope js_scope.

Section Byline.

(** [this._isUrl]. *)
Variable _isUrl : jsstring -> bool.

(** A value that may be [undefined]. *)
Definition value : Type := option jsstring.

(** [this._unescapeHtmlEntities], which is not in the analysed sources: it
    puts the character in the place of each entity of a string
    ([&quot;], [&amp;], [&apos;], [&lt;], [&gt;] and the numeric character
    references). *)
Variable _unescapeHtmlEntities : value -> value.

(** Truthiness: [undefined] and the empty string are falsy. *)
Definition truthy (v : value) : bool :=
  match v with
  | Some (_ :: _) => true
  | _ => false
  end.

(** [a || b] *)
Definition or (a b : value) : value := if truthy a then a else b.
Infix "||" := or : js_scope.
Local Open Scope js_scope.

(** [values["article:author"]] if it is a string and no URL. *)
Definition articleAuthor (values : gmap jsstring jsstring) : value :=
  match values !! lit "article:author" with
  | Some v =>                                 (* typeof ... === "string" *)
      if negb (_isUrl v) then Some v else None
  | None => None
  end.

(** [metadata.byline], as [_getArticleMetadata] leaves it: the first
    source that has a value, with its entities unescaped. *)
Definition byline (jsonld_byline : value) (values : gmap jsstring jsstring)
  : value :=
  let byline :=
    jsonld_byline ||
    values !! lit "dc:creator" ||
    values !! lit "dcterm:creator" ||
    values !! lit "author" ||
    values !! lit "parsely-author" ||
    articleAuthor values in
  (* metadata.byline = this._unescapeHtmlEntities(metadata.byline); *)
  _unescapeHtmlEntities byline.

(** C9. When no other source of the author has a value, the byline is
    the value of [article:author], with its entities unescaped, if that
    value is not a URL, and undefined if it is.  The first hypothesis is
    what the theorem needs of [_unescapeHtmlEntities]: it leaves
    [undefined] as it is. *)
Theorem byline_rejects_url_author (jsonld_byline : value)
    (values : gmap jsstring jsstring) (author : jsstring) :
  _unescapeHtmlEntities None = None ->
  truthy jsonld_byline = false ->
  truthy (values !! lit "dc:creator") = false ->
  truthy (values !! lit "dcterm:creator") = false ->
  truthy (values !! lit "author") = false ->
  truthy (values !! lit "parsely-author") = false ->
  values !! lit "article:author" = Some author ->
  byline jsonld_byline values
  = (if _isUrl author then None else _unescapeHtmlEntities (Some author))
  /\ (_isUrl author = true -> byline jsonld_byline values = None).
Proof.
  intros Hu H1 H2 H3 H4 H5 Ha.
  assert (byline jsonld_byline values
          = if _isUrl author then None
            else _unescapeHtmlEntities (Some author)) as ->.
  { unfold byline, or. rewrite H1, H2, H3, H4, H5.
    unfold articleAuthor. rewrite Ha. by destruct (_isUrl author). }
  split; [done|]. by intros ->.
Qed.

End Byline.

(** A sample of [_isUrl]: the text starts with [http]. *)
Definition looks_like_url (s : jsstring) : bool :=
  startsWith (lit "http") s.

(** A sample of [_unescapeHtmlEntities], which knows [&amp;] only: after
    the [&] of an entity the next [skip] characters are left out. *)
Fixpoint unescape_amp_from (skip : nat) (s : jsstring) : jsstring :=
  match s with
  | [] => []
  | c :: s' =>
      match skip with
      | S skip' => unescape_amp_from skip' s'
      | O =>
          if startsWith (lit "&amp;") s then c :: unescape_amp_from 4 s'
          else c :: unescape_amp_from 0 s'
      end
  end.

Definition unescape_amp (v : value) : value :=
  match v with
  | Some (c :: s) => Some (unescape_amp_from 0 (c :: s))
  | _ => v                                    (* if (!str) return str; *)
  end.

(** The value [Tom &amp; Jerry] of [article:author] gives the byline
    [Tom & Jerry]. *)
Example byline_is_unescaped :
  byline looks_like_url unescape_amp None
         {[ lit "article:author" := lit "Tom &amp; Jerry" ]}
  = Some (lit "Tom & Jerry").
Proof. reflexivity. Qed.

Lemma byline_rejects_url_author_witness :
  byline looks_like_url unescape_amp None
         {[ lit "article:author" := lit "https://example.org/jane" ]} = None.
Proof.
  refine (proj2 (byline_rejects_url_author looks_like_url unescape_amp None
                   {[ lit "article:author" := lit "https://example.org/jane" ]}
                   (lit "https://example.org/jane") _ _ _ _ _ _ _) _);
    reflexivity.
Defined.

End Metadata.

(* ================================================================== *)
(** * The title of the article ([_getArticleTitle]) *)
(* ================================================================== *)

Module Title.

(** The characters of [titleSeparators], [| - – — \ / > »], and the
    hierarchical ones among them, [\ / > »]. *)
Definition titleSeparators : list N :=
  [0x7C; 0x2D; 0x2013; 0x2014; 0x5C; 0x2F; 0x3E; 0xBB]%N.

Definition hierarchicalSeparators : list N := [0x5C; 0x2F; 0x3E; 0xBB]%N.

Definition oneOf (set : list N) (c : N) : bool := bool_decide (c ∈ set).

(** The indices of the matches of [/\s[set]\s/g] in [s], whose first code
    unit has index [i]: matches are found left to right and do not
    overlap. *)
Fixpoint matchAll (set : list N) (i : nat) (s : jsstring) : list nat :=
  match s with
  | a :: ((b :: c :: rest) as tl) =>
      if isWhiteSpace a && oneOf set b && isWhiteSpace c
      then i :: matchAll set (i + 3) rest
      else matchAll set (S i) tl
  | _ => []
  end.

(** [new RegExp(`\\s[${set}]\\s`).test(s)] *)
Definition test (set : list N) (s : jsstring) : bool :=
  match matchAll set 0 s with [] => false | _ :: _ => true end.

(** [s.replace(new RegExp(`\\s[${set}]\\s`, "g"), "")] *)
Fixpoint removeAll (set : list N) (s : jsstring) : jsstring :=
  match s with
  | a :: ((b :: c :: rest) as tl) =>
      if isWhiteSpace a && oneOf set b && isWhiteSpace c
      then removeAll set rest
      else a :: removeAll set tl
  | _ => s
  end.

(** [s.replace(new RegExp(`^[^${set}]*[${set}]`, "gi"), "")]: what follows
    the first separator character, or [s] when it has none. *)
Fixpoint dropThroughFirst (set : list N) (s : jsstring) : option jsstring :=
  match s with
  | [] => None
  | c :: s' => if oneOf set c then Some s' else dropThroughFirst set s'
  end.

Definition removeFirstPart (set : list N) (s : jsstring) : jsstring :=
  default s (dropThroughFirst set s).

(** [s.includes(pat)] *)
Fixpoint includes (pat s : jsstring) : bool :=
  startsWith pat s
  || match s with [] => false | _ :: s' => includes pat s' end.

(** [s.indexOf(":")] and [s.lastIndexOf(":")], [-1] when there is none. *)
Fixpoint indexOf (c : N) (s : jsstring) : Z :=
  match s with
  | [] => -1
  | d :: s' =>
      if (c =? d)%N then 0
      else match indexOf c s' with
           | Zneg _ => -1
           | k => k + 1
           end
  end%Z.

Fixpoint lastIndexOf (c : N) (s : jsstring) : Z :=
  match s with
  | [] => -1
  | d :: s' =>
      match lastIndexOf c s' with
      | Zneg _ => if (c =? d)%N then 0 else -1
      | k => k + 1
      end
  end%Z.

(** [s.substring(start)] and [s.substring(0, end)] / [s.substr(0, end)];
    a negative argument counts as 0. *)
Definition substringFrom (s : jsstring) (start : Z) : jsstring :=
  drop (Z.to_nat start) s.

Definition substringTo (s : jsstring) (stop : Z) : jsstring :=
  take (Z.to_nat stop) s.

(** Modelled from the spec: [wordCount] is not in the analysed sources;
    the words of a string are the pieces between its runs of white space,
    as [str.split(/\s+/).length] counts them. *)
Fixpoint count_runs (after_space : bool) (s : jsstring) : nat :=
  match s with
  | [] => 0
  | c :: s' =>
      if isWhiteSpace c
      then (if after_space then 0 else 1) + count_runs true s'
      else count_runs false s'
  end.

Definition wordCount (s : jsstring) : Z := Z.of_nat (1 + count_runs false s).

(** What [_getArticleTitle] reads of the document: its title, the
    [textContent] of its [h1] and [h2] elements, and the inner text of
    its [h1] elements. *)
Record Document := {
  title : jsstring;
  headings : list jsstring;
  hOnes : list jsstring
}.

Local Open Scope Z_scope.

(** The title and [titleHadHierarchicalSeparators] as the three branches
    leave them, before the final validation. *)
Definition candidate (doc : Document) : jsstring * jsstring * bool :=
  let origTitle := trim (title doc) in
  let curTitle := origTitle in
  if test titleSeparators curTitle then
    (* If there's a separator in the title, first remove the final part *)
    let titleHadHierarchicalSeparators := test hierarchicalSeparators curTitle in
    let allSeparators := matchAll titleSeparators 0 origTitle in
    let curTitle :=
      substringTo origTitle (Z.of_nat (default 0%nat (last allSeparators))) in
    (* If the resulting title is too short, remove the first part instead *)
    let curTitle :=
      if wordCount curTitle <? 3
      then removeFirstPart titleSeparators origTitle
      else curTitle in
    (curTitle, origTitle, titleHadHierarchicalSeparators)
  else if includes (lit ": ") curTitle then
    (* Check if we have an heading containing this exact string *)
    let trimmedTitle := trim curTitle in
    let match_ :=
      existsb (fun heading => jsstring_eqb (trim heading) trimmedTitle)
              (headings doc) in
    if negb match_ then
      let curTitle := substringFrom origTitle (lastIndexOf 0x3A origTitle + 1) in
      let curTitle :=
        if wordCount curTitle <? 3 then
          substringFrom origTitle (indexOf 0x3A origTitle + 1)
        else if 5 <? wordCount (substringTo origTitle (indexOf 0x3A origTitle))
        then origTitle
        else curTitle in
      (curTitle, origTitle, false)
    else (curTitle, origTitle, false)
  else if (150 <? Z.of_nat (length curTitle))
          || (Z.of_nat (length curTitle) <? 15) then
    match hOnes doc with
    | [hOne] => (hOne, origTitle, false)         (* hOnes.length === 1 *)
    | _ => (curTitle, origTitle, false)
    end
  else (curTitle, origTitle, false).

(** The final validation: the title it leaves, and whether it took the
    branch [curTitle = origTitle]. *)
Definition validate (c : jsstring * jsstring * bool) : jsstring * bool :=
  let '(curTitle, origTitle, titleHadHierarchicalSeparators) := c in
  let curTitle := normalize (trim curTitle) in
  let curTitleWordCount := wordCount curTitle in
  if (curTitleWordCount <=? 4)
     && (negb titleHadHierarchicalSeparators
         || negb (curTitleWordCount =?
                  wordCount (removeAll titleSeparators origTitle) - 1))
  then (origTitle, true)
  else (curTitle, false).

Definition _getArticleTitle (doc : Document) : jsstring :=
  fst (validate (candidate doc)).

(** The condition of the claim: at most four words, and no hierarchical
    separator or a loss of more than one word against the original title
    without its separators. *)
Definition documented_revert (c : jsstring * jsstring * bool) : bool :=
  let '(curTitle, origTitle, titleHadHierarchicalSeparators) := c in
  let curTitle := normalize (trim curTitle) in
  (wordCount curTitle <=? 4)
  && (negb titleHadHierarchicalSeparators
      || (1 <? wordCount (removeAll titleSeparators origTitle)
               - wordCount curTitle)).

(** What the code tests: the loss of words is not exactly one. *)
Lemma validate_reverts_iff c :
  snd (validate c) =
  let '(curTitle, origTitle, titleHadHierarchicalSeparators) := c in
  let curTitle := normalize (trim curTitle) in
  (wordCount curTitle <=? 4)
  && (negb titleHadHierarchicalSeparators
      || negb (wordCount (removeAll titleSeparators origTitle)
               - wordCount curTitle =? 1)).
Proof.
  destruct c as [[cur orig] hier]. unfold validate.
  set (w := wordCount (normalize (trim cur))).
  set (o := wordCount (removeAll titleSeparators orig)).
  replace (w =? o - 1) with (o - w =? 1)
    by (destruct (Z.eqb_spec (o - w) 1), (Z.eqb_spec w (o - 1)); lia).
  by destruct (_ && _).
Qed.

(** The title [Foo / Bar baz]. *)
Definition foo_bar_baz : Document :=
  {| title := lit "Foo / Bar baz"; headings := []; hOnes := [] |}.

(** C4. For the title [Foo / Bar baz] the heuristic arrives at [Bar baz]:
    two words, a hierarchical separator, and no word lost against
    [FooBar baz].  The condition of the claim is false, and the code
    reverts to the original title. *)
Theorem title_reverted_without_loss_of_words :
  candidate foo_bar_baz = (lit " Bar baz", lit "Foo / Bar baz", true) /\
  wordCount (normalize (trim (lit " Bar baz"))) = 2 /\
  wordCount (removeAll titleSeparators (lit "Foo / Bar baz")) = 2 /\
  documented_revert (candidate foo_bar_baz) = false /\
  validate (candidate foo_bar_baz) = (lit "Foo / Bar baz", true) /\
  _getArticleTitle foo_bar_baz = lit "Foo / Bar baz".
Proof. repeat split; by vm_compute. Qed.

End Title.

(* ================================================================== *)
(** * Link density ([_getLinkDensity]) *)
(* ================================================================== *)

(** Modelled from the spec: [_getInnerText] is not in the analysed
    sources; the inner text of an element is its text content, trimmed
    and with its white space normalized. *)
Definition _getInnerText (e : Node) : jsstring :=
  normalize (trim (textContent e)).

(** ** The length of an inner text *)

(** The length of [normalize (trim s)], counted in one pass: every
    character that is not white space counts, and so does every run of
    white space between two of them.  [seen] says that such a character
    was met, [pending] that white space was met since. *)
Fixpoint ilen (seen pending : bool) (s : jsstring) : nat :=
  match s with
  | [] => 0
  | c :: s' =>
      if isWhiteSpace c then ilen seen seen s'
      else (if pending then 2 else 1) + ilen true false s'
  end.

Lemma trimEnd_blank s :
  forallb isWhiteSpace s = true -> trimEnd s = [].
Proof.
  induction s as [|c s IH]; [done|]. simpl.
  intros [Hc Hs]%andb_true_iff. by rewrite IH, Hc.
Qed.

Lemma trimEnd_cons_nonblank c s :
  forallb isWhiteSpace s = false -> trimEnd (c :: s) = c :: trimEnd s /\ trimEnd s <> [].
Proof.
  revert c. induction s as [|d s IH]; [done|]. intros c Hs.
  assert (Hd : trimEnd (d :: s) <> []).
  { simpl in Hs. simpl. destruct (isWhiteSpace d) eqn:Ed.
    - simpl in Hs. destruct (IH d Hs) as [_ Hne]. by destruct (trimEnd s).
    - by destruct (trimEnd s). }
  split; [|done]. change (trimEnd (c :: d :: s)) with
    (match trimEnd (d :: s) with
     | [] => if isWhiteSpace c then [] else [c]
     | t => c :: t end).
  by destruct (trimEnd (d :: s)).
Qed.

Lemma trimEnd_head c s t :
  trimEnd s = c :: t -> exists s', s = c :: s'.
Proof.
  destruct s as [|d s]; [done|]. simpl.
  destruct (trimEnd s); [destruct (isWhiteSpace d)|]; intros [= -> _]; by eexists.
Qed.

Lemma ilen_blank seen pending s :
  forallb isWhiteSpace s = true -> ilen seen pending s = 0%nat.
Proof.
  revert seen pending. induction s as [|c s IH]; [done|]. simpl.
  intros seen pending [Hc Hs]%andb_true_iff. rewrite Hc. by apply IH.
Qed.

Lemma normalize_from_cons r c d t :
  normalize_from r (c :: d :: t) =
  if isWhiteSpace c then
    if r then normalize_from true (d :: t)
    else if isWhiteSpace d then 0x20%N :: normalize_from true (d :: t)
         else c :: normalize_from false (d :: t)
  else c :: normalize_from false (d :: t).
Proof. reflexivity. Qed.

Lemma ilen_cons seen pending c s :
  ilen seen pending (c :: s) =
  if isWhiteSpace c then ilen seen seen s
  else ((if pending then 2 else 1) + ilen true false s)%nat.
Proof. reflexivity. Qed.

Lemma normalize_trimEnd_length s :
  length (normalize_from false (trimEnd s)) = ilen true false s /\
  (length (normalize_from true (trimEnd s))
   + (if forallb isWhiteSpace s then 0 else 1))%nat = ilen true true s.
Proof.
  induction s as [|c s [IH1 IH2]]; [done|].
  destruct (forallb isWhiteSpace s) eqn:Hs.
  - (* only white space follows *)
    rewrite (trimEnd_blank s Hs) in IH1, IH2.
    simpl. rewrite (trimEnd_blank s Hs), Hs.
    destruct (isWhiteSpace c) eqn:Hc; simpl; rewrite ?Hc; simpl.
    + rewrite !ilen_blank by done. done.
    + rewrite !ilen_blank by done. done.
  - destruct (trimEnd_cons_nonblank c s Hs) as [-> Hne].
    destruct (trimEnd s) as [|d t] eqn:Ht; [done|].
    destruct (trimEnd_head _ _ _ Ht) as [s' ->].
    rewrite !normalize_from_cons, !(ilen_cons _ _ c).
    change (forallb isWhiteSpace (c :: d :: s'))
      with (isWhiteSpace c && forallb isWhiteSpace (d :: s')).
    rewrite Hs, andb_false_r in *.
    destruct (isWhiteSpace c) eqn:Hc.
    + split; [|lia].
      rewrite !(ilen_cons _ _ d) in *.
      destruct (isWhiteSpace d) eqn:Hd; cbn [length]; lia.
    + cbn [length]. lia.
Qed.

Lemma ilen_trimStart seen s :
  ilen seen seen s = ilen seen seen (trimStart s).
Proof.
  induction s as [|c s IH]; [done|]. simpl.
  destruct (isWhiteSpace c) eqn:Hc; [done|]. simpl. by rewrite Hc.
Qed.

(** The length of an inner text is what [ilen] counts. *)
Lemma normalize_trim_length s :
  length (normalize (trim s)) = ilen false false s.
Proof.
  unfold normalize, trim. rewrite (ilen_trimStart false s).
  destruct (trimStart s) as [|c u] eqn:Hu; [done|].
  assert (Hc : isWhiteSpace c = false).
  { clear -Hu. induction s as [|d s IH]; [done|]. simpl in Hu.
    destruct (isWhiteSpace d) eqn:Hd; [by apply IH|]. by inversion Hu; subst. }
  rewrite (proj1 (normalize_trimEnd_length (c :: u))).
  simpl. by rewrite Hc.
Qed.

Lemma ilen_mono seen pending s :
  (ilen false false s <= ilen seen pending s)%nat.
Proof.
  revert seen pending. induction s as [|c s IH]; [done|].
  intros seen pending. simpl. destruct (isWhiteSpace c).
  - apply IH.
  - destruct pending; lia.
Qed.

Lemma ilen_app seen pending a b :
  (ilen seen pending a + ilen false false b <= ilen seen pending (a ++ b))%nat.
Proof.
  revert seen pending. induction a as [|c a IH]; intros seen pending; simpl.
  - apply ilen_mono.
  - destruct (isWhiteSpace c); [apply IH|].
    specialize (IH true false). lia.
Qed.

(** The inner texts of consecutive pieces fit in the inner text of the
    whole. *)
Lemma inner_length_app a b :
  (length (normalize (trim a)) + length (normalize (trim b))
   <= length (normalize (trim (a ++ b))))%nat.
Proof. rewrite !normalize_trim_length. apply ilen_app. Qed.

Module LinkDensity.

Local Open Scope Q_scope.

(** The characters that [.] does not match. *)
Definition isLineTerminator (c : N) : bool :=
  bool_decide (c ∈ [0x000A; 0x000D; 0x2028; 0x2029]%N).

(** Modelled from the spec: [REGEXPS.hashUrl] is not in the analysed
    sources; the spec gives the pattern [^#.+]. *)
Definition hashUrl (href : jsstring) : bool :=
  match href with
  | h :: c :: _ => (h =? 0x23)%N && negb (isLineTerminator c)
  | _ => false
  end.

(** [href && this.REGEXPS.hashUrl.test(href) ? 0.3 : 1] *)
Definition coefficient (linkNode : Node) : Q :=
  match getAttribute linkNode "href" with
  | Some (c :: h) => if hashUrl (c :: h) then 3 # 10 else 1
  | _ => 1
  end.

Definition textLength (e : Node) : nat := length (_getInnerText e).

(** [_getLinkDensity(element)] *)
Definition _getLinkDensity (element : Node) : Q :=
  if (textLength element =? 0)%nat then 0
  else
    let linkLength :=
      fold_left
        (fun linkLength linkNode =>
           linkLength
           + inject_Z (Z.of_nat (textLength linkNode)) * coefficient linkNode)
        (getElementsByTagName "A" element) 0 in
    linkLength / inject_Z (Z.of_nat (textLength element)).

(** ** The claim in its own terms *)





(** ** Properties *)












End LinkDensity.

(* ================================================================== *)
(** * Sibling assembly ([_grabArticle], after the top candidate) *)
(* ================================================================== *)

Module Siblings.

Local Open Scope Q_scope.

(** A DOM object: a node with its identity, which [===] compares. *)
Record Obj := { ref : nat; node : Node }.

(** [a === b] on objects *)
Definition same (a b : Obj) : bool := (ref a =? ref b)%nat.

(** [node.className]: the [class] attribute, or the empty string. *)
Definition className (n : Node) : jsstring := default [] (getAttribute n "class").

(** [ALTER_TO_DIV_EXCEPTIONS] *)
Definition ALTER_TO_DIV_EXCEPTIONS : list string :=
  ["DIV"; "ARTICLE"; "SECTION"; "P"; "OL"; "UL"]%string.

(** [Math.max(a, b)] *)
Definition max (a b : Q) : Q := if Qle_bool a b then b else a.

(** [a >= b], [a < b] and [a === b] on numbers *)
Definition geb (a b : Q) : bool := Qle_bool b a.
Definition ltb (a b : Q) : bool := negb (Qle_bool b a).
Definition eqb (a b : Q) : bool := Qeq_bool a b.

(** [nodeContent.search(/\.( |$)/) !== -1]: a full stop that a space or
    the end of the text follows. *)
Fixpoint ends_a_sentence (s : jsstring) : bool :=
  match s with
  | [] => false
  | c :: s' =>
      ((c =? 0x2E)%N && match s' with [] => true | d :: _ => (d =? 0x20)%N end)
      || ends_a_sentence s'
  end.

Section Assembly.

Variable _docJSDOMParser : bool.

Variable topCandidate : Obj.

(** [topCandidate.readability.contentScore], read once before the loop
    and at each sibling whose class is compared. *)
Variable topScore : Q.

(** [siblingScoreThreshold] *)
Definition siblingScoreThreshold : Q := max 10 (topScore * (2 # 10)).

(** The value of [append] at the end of the body of the loop. *)
Definition append (sibling : Obj) : bool :=
  let append := false in
  if same sibling topCandidate then true
  else
    let contentBonus := 0 in
    (* Give a bonus if sibling nodes and top candidates have the same
       classname *)
    let contentBonus :=
      if jsstring_eqb (className (node sibling)) (className (node topCandidate))
         && negb (jsstring_eqb (className (node topCandidate)) [])
      then contentBonus + topScore * (2 # 10)
      else contentBonus in
    if match readability (node sibling) with
       | Some r => geb (contentScore r + contentBonus) siblingScoreThreshold
       | None => false
       end
    then true
    else if tagName_is (node sibling) "P" then
      let linkDensity := LinkDensity._getLinkDensity (node sibling) in
      let nodeContent := _getInnerText (node sibling) in
      let nodeLength := length nodeContent in
      if (80 <? nodeLength)%nat && ltb linkDensity (25 # 100) then true
      else if (nodeLength <? 80)%nat && (0 <? nodeLength)%nat
              && eqb linkDensity 0 && ends_a_sentence nodeContent
      then true
      else append
    else append.

(** [if (!this.ALTER_TO_DIV_EXCEPTIONS.includes(sibling.nodeName))
      sibling = this._setNodeTag(sibling, "DIV");] *)
Definition alter_to_div (sibling : Node) : Node :=
  if negb (bool_decide (tagName sibling ∈ Some <$> ALTER_TO_DIV_EXCEPTIONS))
  then Retag._setNodeTag _docJSDOMParser sibling "DIV"
  else sibling.

Inductive Outcome :=
| Finished (articleContent : list Node) (remaining : list Obj)
| TypeError
| OutOfFuel.

(** The loop [for (var s = 0, sl = siblings.length; s < sl; s++)], from
    the test [s < sl] on.  [siblings] is the live collection
    [parentOfTopCandidate.children], [articleContent] the children of the
    new container. *)
Fixpoint loop (fuel : nat) (s sl : Z) (siblings : list Obj)
  (articleContent : list Node) : Outcome :=
  if (s <? sl)%Z then
    match fuel with
    | O => OutOfFuel
    | S fuel =>
        match siblings !! Z.to_nat s with
        | None => TypeError         (* siblings[s] is undefined *)
        | Some sibling =>
            if append sibling then
              let sibling' := alter_to_div (node sibling) in
              (* articleContent.appendChild(sibling) takes the sibling
                 out of its parent *)
              let articleContent := articleContent ++ [sibling'] in
              let siblings := delete (Z.to_nat s) siblings in
              let s := (s - 1)%Z in
              let sl := (sl - 1)%Z in
              loop fuel (s + 1)%Z sl siblings articleContent
            else loop fuel (s + 1)%Z sl siblings articleContent
        end
    end
  else Finished articleContent siblings.

Definition assemble (fuel : nat) (siblings : list Obj) : Outcome :=
  loop fuel 0 (Z.of_nat (length siblings)) siblings [].

(** ** Properties *)

Lemma loop_spec done todo acc fuel :
  (length todo <= fuel)%nat ->
  loop fuel (Z.of_nat (length done)) (Z.of_nat (length (done ++ todo)))
       (done ++ todo) acc
  = Finished
      (acc ++ map (fun o => alter_to_div (node o)) (List.filter append todo))
      (done ++ List.filter (fun o => negb (append o)) todo).
Proof.
  revert done acc fuel.
  induction todo as [|x todo IH]; intros done acc fuel Hfuel.
  - rewrite !app_nil_r. destruct fuel; simpl; by rewrite Z.ltb_irrefl.
  - destruct fuel as [|fuel]; [simpl in Hfuel; lia|].
    cbn [loop]. rewrite length_app. cbn [length].
    destruct (Z.ltb_spec (Z.of_nat (length done))
                (Z.of_nat (length done + S (length todo)))) as [_|?]; [|lia].
    rewrite Nat2Z.id, list_lookup_middle by done.
    cbn [List.filter map]. destruct (append x) eqn:Hx; cbn [negb].
    + replace (delete (length done) (done ++ x :: todo)) with (done ++ todo).
      2:{ rewrite delete_middle. done. }
      replace (Z.of_nat (length done) - 1 + 1)%Z
        with (Z.of_nat (length done)) by lia.
      replace (Z.of_nat (length done + S (length todo)) - 1)%Z
        with (Z.of_nat (length (done ++ todo)))
        by (rewrite length_app; lia).
      rewrite IH by (simpl in Hfuel; lia).
      by rewrite <- app_assoc.
    + replace (Z.of_nat (length done) + 1)%Z
        with (Z.of_nat (length (done ++ [x])))
        by (rewrite length_app; simpl; lia).
      replace (done ++ x :: todo) with ((done ++ [x]) ++ todo)
        by (by rewrite <- app_assoc).
      replace (Z.of_nat (length done + S (length todo)))
        with (Z.of_nat (length ((done ++ [x]) ++ todo)))
        by (rewrite !length_app; simpl; lia).
      rewrite IH by (simpl in Hfuel; lia).
      by rewrite <- !app_assoc.
Qed.


Lemma ltb_lt a b : ltb a b = true <-> a < b.
Proof.
  unfold ltb. rewrite negb_true_iff, <- not_true_iff_false, Qle_bool_iff.
  split; [apply Qnot_le_lt|apply Qlt_not_le].
Qed.



End Assembly.

(** The assembly as [_grabArticle] runs it: the score is that of the
    annotation of the top candidate. *)
Definition grab_siblings (_docJSDOMParser : bool) (topCandidate : Obj)
  (fuel : nat) (siblings : list Obj) : Outcome :=
  match readability (node topCandidate) with
  | Some r =>
      assemble _docJSDOMParser topCandidate (contentScore r) fuel siblings
  | None => TypeError               (* topCandidate.readability is undefined *)
  end.


(** A top candidate of score 100 and class [post] among five children:
    a short paragraph without a full stop, the candidate, a paragraph that
    is one sentence, a section of the same class with score 5, and a form
    with score 30. *)
Definition top : Obj :=
  {| ref := 1;
     node := Elem "DIV" [("class"%string, lit "post")]
                  (Some {| contentScore := 100 |}) [Text (lit "The article")] |}.

Definition family : list Obj :=
  [ {| ref := 0; node := Elem "P" [] None [Text (lit "Menu")] |};
    top;
    {| ref := 2; node := Elem "P" [] None [Text (lit "Thanks for reading.")] |};
    {| ref := 3;
       node := Elem "SECTION" [("class"%string, lit "post")]
                    (Some {| contentScore := 5 |}) [Text (lit "More")] |};
    {| ref := 4;
       node := Elem "FORM" [] (Some {| contentScore := 30 |}) [Text (lit "Mail")] |} ].


End Siblings.

(* ================================================================== *)
(** * Post-processing ([_postProcessContent]) *)
(* ================================================================== *)

(** [str.split(/\s+/)]: the pieces between the runs of white space.
    [after_space] says that the preceding character was white space. *)
Fixpoint split_spaces_from (after_space : bool) (s : jsstring) : list jsstring :=
  match s with
  | [] => [[]]
  | c :: s' =>
      if isWhiteSpace c then
        if after_space then split_spaces_from true s'
        else [] :: split_spaces_from true s'
      else match split_spaces_from false s' with
           | piece :: pieces => (c :: piece) :: pieces
           | [] => [[c]]
           end
  end.

Definition split_spaces (s : jsstring) : list jsstring :=
  split_spaces_from false s.

(** [pieces.join(" ")] *)
Fixpoint join_space (pieces : list jsstring) : jsstring :=
  match pieces with
  | [] => []
  | [p] => p
  | p :: pieces' => p ++ 0x20%N :: join_space pieces'
  end.

(** ** Splitting what was joined *)

(** A piece without white space. *)
Definition solid (t : jsstring) : bool :=
  forallb (fun c => negb (isWhiteSpace c)) t.

Definition word (t : jsstring) : Prop := t <> [] /\ solid t = true.

(** The empty list, or the list of the empty string alone. *)
Definition at_most_empty (e : list jsstring) : Prop := e = [] \/ e = [[]].

Lemma split_spaces_shape b s :
  exists e1 M e2,
    split_spaces_from b s = e1 ++ M ++ e2
    /\ (b = true -> e1 = [])
    /\ at_most_empty e1 /\ at_most_empty e2 /\ Forall word M
    /\ e1 ++ M ++ e2 <> [].
Proof.
  revert b. induction s as [|c s IH]; intros b.
  { exists [], [], [[]]. split_and!; try done; [by left|by right]. }
  simpl. destruct (isWhiteSpace c) eqn:Hc.
  - destruct (IH true) as (e1 & M & e2 & Hs & He1 & H1 & H2 & HM & Hne).
    rewrite (He1 eq_refl) in *. destruct b.
    + exists [], M, e2. split_and!; done.
    + exists [[]], M, e2. rewrite Hs. split_and!; try done. by right.
  - destruct (IH false) as (e1 & M & e2 & Hs & _ & H1 & H2 & HM & Hne).
    rewrite Hs. assert (Hw : word [c]) by (split; [done|]; simpl; by rewrite Hc).
    destruct H1 as [->| ->].
    + destruct M as [|m M].
      * destruct H2 as [->| ->]; [done|]. simpl.
        exists [], [[c]], []. split_and!; try done; try (by left).
        by constructor.
      * simpl. exists [], ((c :: m) :: M), e2.
        apply Forall_cons in HM as [[Hm1 Hm2] HM].
        split_and!; try done; try (by left).
        constructor; [|done]. split; [done|]. simpl. by rewrite Hc.
    + simpl. exists [], ([c] :: M), e2.
      split_and!; try done; try (by left). by constructor.
Qed.

Lemma split_spaces_word b t rest :
  word t ->
  split_spaces_from b (t ++ rest)
  = (t ++ hd [] (split_spaces_from false rest))
      :: tl (split_spaces_from false rest).
Proof.
  intros [Hne Hsolid]. revert b.
  induction t as [|c t IH]; [done|]. intros b.
  simpl in Hsolid. apply andb_true_iff in Hsolid as [Hc Ht].
  apply negb_true_iff in Hc. simpl. rewrite Hc.
  destruct t as [|d t].
  - simpl. by destruct (split_spaces_from false rest).
  - by rewrite (IH ltac:(done) Ht false).
Qed.

Lemma join_space_cons p pieces :
  pieces <> [] -> join_space (p :: pieces) = p ++ 0x20%N :: join_space pieces.
Proof. by destruct pieces. Qed.

Lemma split_spaces_join_words b M e2 :
  Forall word M -> at_most_empty e2 -> M ++ e2 <> [] ->
  split_spaces_from b (join_space (M ++ e2)) = M ++ e2.
Proof.
  intros HM He2. revert b.
  induction HM as [|m M Hm HM IH]; intros b Hne.
  - destruct He2 as [->| ->]; [done|]. by destruct b.
  - simpl app. destruct (decide (M ++ e2 = [])) as [Hnil|Hrest].
    + rewrite Hnil. cbn [join_space].
      rewrite <- (app_nil_r m) at 1. rewrite split_spaces_word by done.
      simpl. by rewrite app_nil_r.
    + rewrite join_space_cons by done.
      rewrite split_spaces_word by done.
      assert (Hsp : split_spaces_from false (0x20%N :: join_space (M ++ e2))
                    = [] :: split_spaces_from true (join_space (M ++ e2)))
        by reflexivity.
      rewrite Hsp. simpl. rewrite app_nil_r. by rewrite IH.
Qed.

(** What [split] gave and [filter] kept is found again when it is joined
    and split. *)
Lemma split_join_filter (keep : jsstring -> bool) (s : jsstring) :
  let pieces := List.filter keep (split_spaces s) in
  pieces <> [] -> split_spaces (join_space pieces) = pieces.
Proof.
  unfold split_spaces.
  destruct (split_spaces_shape false s)
    as (e1 & M & e2 & -> & _ & H1 & H2 & HM & _).
  rewrite !List.filter_app. cbv zeta.
  assert (HM' : Forall word (List.filter keep M)).
  { apply Forall_forall. intros t Ht%list_elem_of_In%filter_In.
    destruct Ht as [Ht _]. rewrite Forall_forall in HM.
    by apply HM, list_elem_of_In. }
  assert (H2' : at_most_empty (List.filter keep e2)).
  { destruct H2 as [->| ->]; [by left|]. simpl.
    destruct (keep []); [by right|by left]. }
  intros Hne.
  assert (He1 : List.filter keep e1 = [] \/ List.filter keep e1 = [[]]).
  { destruct H1 as [->| ->]; [by left|]. simpl.
    destruct (keep []); [by right|by left]. }
  destruct He1 as [He1|He1]; rewrite He1 in *; simpl app in *.
  - by apply split_spaces_join_words.
  - destruct (decide (List.filter keep M ++ List.filter keep e2 = []))
      as [Hnil|Hrest].
    + by rewrite Hnil.
    + rewrite join_space_cons by done.
      change (split_spaces_from false ([] ++ 0x20%N :: ?x))
        with ([] :: split_spaces_from true x).
      by rewrite split_spaces_join_words.
Qed.

Module PostProcess.

Section PostProcessContent.

Variables baseURI documentURI : jsstring.
Variable URL_href : jsstring -> jsstring -> completion jsstring.

(** [this._classesToPreserve] and [this._keepClasses]. *)
Variable _classesToPreserve : list jsstring.
Variable _keepClasses : bool.

(** The value of [toAbsoluteURI(uri)], which never throws. *)
Definition toAbsoluteURI (uri : jsstring) : jsstring :=
  match Uris.toAbsoluteURI baseURI documentURI URL_href uri with
  | Normal v => v
  | Thrown _ => uri
  end.

(** [srcset.replace(this.REGEXPS.srcsetUrl, callback)] with the pattern
    [/(\S+)(\s+[\d.]+[xw])?(\s*(?:,|$))/g].  The pattern is tried at each
    position from left to right, and after a match at the end of it.

    [take_while] and [drop_while] split off the longest prefix of
    characters with a property. *)
Fixpoint take_while (p : N -> bool) (s : jsstring) : jsstring :=
  match s with
  | c :: s' => if p c then c :: take_while p s' else []
  | [] => []
  end.

Fixpoint drop_while (p : N -> bool) (s : jsstring) : jsstring :=
  match s with
  | c :: s' => if p c then drop_while p s' else s
  | [] => []
  end.

Definition isDigitOrDot (c : N) : bool :=
  ((0x30 <=? c)%N && (c <=? 0x39)%N) || (c =? 0x2E)%N.

(** The third group [(\s*(?:,|$))] at the start of [s]: the group and
    what follows it. *)
Definition match_delimiter (s : jsstring) : option (jsstring * jsstring) :=
  let spaces := take_while isWhiteSpace s in
  match drop_while isWhiteSpace s with
  | [] => Some (spaces, [])
  | c :: rest => if (c =? 0x2C)%N then Some (spaces ++ [c], rest) else None
  end.

(** The second group [(\s+[\d.]+[xw])] at the start of [s]. *)
Definition match_descriptor (s : jsstring) : option (jsstring * jsstring) :=
  let spaces := take_while isWhiteSpace s in
  let s1 := drop_while isWhiteSpace s in
  let digits := take_while isDigitOrDot s1 in
  match spaces, digits, drop_while isDigitOrDot s1 with
  | _ :: _, _ :: _, c :: rest =>
      if (c =? 0x78)%N || (c =? 0x77)%N
      then Some (spaces ++ digits ++ [c], rest) else None
  | _, _, _ => None
  end.

(** With the first group shortened to [k] characters of the run of
    non-space characters, the next character must be the comma. *)
Fixpoint shorter_url (k : nat) (run rest : jsstring)
  : option (jsstring * option jsstring * jsstring * jsstring) :=
  match k with
  | O => None
  | S k' =>
      match drop k run with
      | c :: after =>
          if (c =? 0x2C)%N then Some (take k run, None, [c], after ++ rest)
          else shorter_url k' run rest
      | [] => shorter_url k' run rest
      end
  end.

(** The match at the start of [s], if there is one: the three groups and
    what follows the match. *)
Definition match_srcsetUrl (s : jsstring)
  : option (jsstring * option jsstring * jsstring * jsstring) :=
  let run := take_while (fun c => negb (isWhiteSpace c)) s in
  let rest := drop_while (fun c => negb (isWhiteSpace c)) s in
  match run with
  | [] => None
  | _ :: _ =>
      let with_descriptor :=
        match match_descriptor rest with
        | Some (p2, rest2) =>
            match match_delimiter rest2 with
            | Some (p3, rest3) => Some (run, Some p2, p3, rest3)
            | None => None
            end
        | None => None
        end in
      match with_descriptor with
      | Some m => Some m
      | None =>
          match match_delimiter rest with
          | Some (p3, rest3) => Some (run, None, p3, rest3)
          | None => shorter_url (length run - 1) run rest
          end
      end
  end.

Fixpoint replace_srcsetUrl (fuel : nat)
  (callback : jsstring -> option jsstring -> jsstring -> jsstring)
  (s : jsstring) : jsstring :=
  match fuel, s with
  | S fuel, c :: s' =>
      match match_srcsetUrl s with
      | Some (p1, p2, p3, rest) =>
          callback p1 p2 p3 ++ replace_srcsetUrl fuel callback rest
      | None => c :: replace_srcsetUrl fuel callback s'
      end
  | _, _ => s
  end.

Definition fix_srcset (srcset : jsstring) : jsstring :=
  replace_srcsetUrl (length srcset)
    (fun p1 p2 p3 => toAbsoluteURI p1 ++ default [] p2 ++ p3) srcset.

(** [if (value) element.setAttribute(name, f(value))] on the attributes. *)
Definition rewrite_attr (name : string) (f : jsstring -> jsstring)
  (value : option jsstring) (a : list (string * jsstring))
  : list (string * jsstring) :=
  match value with
  | Some (c :: v) => Retag.set_attr a (name, f (c :: v))
  | _ => a
  end.

(** The tags of the media elements. *)
Definition MEDIA : list string :=
  ["IMG"; "PICTURE"; "FIGURE"; "VIDEO"; "AUDIO"; "SOURCE"]%string.

(** A link whose [href] starts with [javascript:]. *)
Definition is_javascript_link (t : string) (a : list (string * jsstring))
  : bool :=
  bool_decide (t = "A"%string)
  && match lookup_attr "href" a with
     | Some (c :: h) => startsWith (lit "javascript:") (c :: h)
     | _ => false
     end.

(** The attributes of a link that stays, or of a media element, after
    the callback: [href], or [src], [poster] and [srcset], all three read
    before any is written. *)
Definition fix_attributes (t : string) (a : list (string * jsstring))
  : list (string * jsstring) :=
  if bool_decide (t = "A"%string) then
    rewrite_attr "href" toAbsoluteURI (lookup_attr "href" a) a
  else if bool_decide (t ∈ MEDIA) then
    let src := lookup_attr "src" a in
    let poster := lookup_attr "poster" a in
    let srcset := lookup_attr "srcset" a in
    let a := rewrite_attr "src" toAbsoluteURI src a in
    let a := rewrite_attr "poster" toAbsoluteURI poster a in
    let a := rewrite_attr "srcset" fix_srcset srcset a in
    a
  else a.

(** [_fixRelativeUris(articleContent)].  The links and then the media
    elements are taken from static lists of all descendants of
    [articleContent], so each is handled where it stands ([fix_uris]): a
    [javascript:] link becomes a text node when its only child is a text
    node, and otherwise a [span] that receives its children; any other
    link gets its [href] resolved; a media element gets [src], [poster]
    and [srcset] resolved. *)
Fixpoint fix_uris (n : Node) : Node :=
  match n with
  | Text _ => n
  | Elem t a r kids =>
      if is_javascript_link t a then
        match kids with
        | [Text s] => Text s              (* createTextNode(link.textContent) *)
        | _ => Elem "SPAN" [] None (map fix_uris kids)
        end
      else Elem t (fix_attributes t a) r (map fix_uris kids)
  end.

Definition _fixRelativeUris (articleContent : Node) : Node :=
  match articleContent with
  | Text _ => articleContent
  | Elem t a r kids => Elem t a r (map fix_uris kids)
  end.

(** [this.REGEXPS.hasContent.test]. *)
Variable hasContent : jsstring -> bool.

(** [_isElementWithoutContent(node)] *)
Definition _isElementWithoutContent (node : Node) : bool :=
  isElement node
  && (length (trim (textContent node)) =? 0)%nat
  && ((length (children node) =? 0)%nat
      || (length (children node)
          =? length (getElementsByTagName "BR" node)
             + length (getElementsByTagName "HR" node))%nat).

(** [node.id]: the [id] attribute, or the empty string. *)
Definition id (n : Node) : jsstring := default [] (getAttribute n "id").

(** The test of [_simplifyNestedElements] on a node that has a parent:
    [["DIV", "SECTION"].includes(node.tagName) &&
     !(node.id && node.id.startsWith("readability"))]. *)
Definition is_wrapper_candidate (node : Node) : bool :=
  bool_decide (tagName node ∈ [Some "DIV"; Some "SECTION"]%string)
  && negb (match id node with
           | _ :: _ => startsWith (lit "readability") (id node)
           | [] => false
           end).

Definition has_single_wrapper (node : Node) : bool :=
  Tables._hasSingleTagInsideElement hasContent node "DIV"
  || Tables._hasSingleTagInsideElement hasContent node "SECTION".

(** [for (i...) child.setAttributeNode(node.attributes[i].cloneNode())] *)
Definition inherit (from a : list (string * jsstring))
  : list (string * jsstring) :=
  fold_left Retag.set_attr from a.

(** Modelled from the spec: [_getNextNode] and [_removeAndGetNext] are
    not in the analysed sources; the walk is depth-first over the
    elements, a removed node is left for its next sibling (or that of an
    ancestor), without entering it.

    [simplify_node inherited node] is what the loop of
    [_simplifyNestedElements] leaves of the subtree of [node], a node
    with a parent, from the moment it reaches it: nothing when the node
    is removed.  When the node is replaced by its only child, the loop
    goes on at the child, which has received the attributes of the node:
    [inherited] are the attributes so received. *)
Fixpoint simplify_node (inherited : list (string * jsstring)) (node : Node)
  : option Node :=
  match node with
  | Text _ => Some node
  | Elem t a r kids =>
      let a := inherit inherited a in
      let node := Elem t a r kids in
      let descend := Elem t a r (omap (simplify_node []) kids) in
      if is_wrapper_candidate node then
        if _isElementWithoutContent node then None
        else if has_single_wrapper node then
          (* var child = node.children[0]; ... node = child; continue; *)
          (fix first (l : list Node) : option Node :=
             match l with
             | [] => Some descend
             | Text _ :: l' => first l'
             | (Elem _ _ _ _ as child) :: _ => simplify_node a child
             end) kids
        else Some descend
      else Some descend
  end.

(** [_simplifyNestedElements(articleContent)]: the walk starts at
    [articleContent], which has no parent and is left as it is, and goes
    through its descendants. *)
Definition _simplifyNestedElements (articleContent : Node) : Node :=
  match articleContent with
  | Text _ => articleContent
  | Elem t a r kids => Elem t a r (omap (simplify_node []) kids)
  end.

(** [node.removeAttribute("class")] *)
Definition remove_attr (name : string) (a : list (string * jsstring))
  : list (string * jsstring) :=
  List.filter (fun kv => negb (String.eqb (fst kv) name)) a.

(** [_cleanClasses(node)]: first the [class] attribute of the node,
<<
    var className = (node.getAttribute("class") || "")
      .split(/\s+/)
      .filter(cls => classesToPreserve.includes(cls))
      .join(" ");
>> *)
Definition preserved_classes (class : option jsstring) : jsstring :=
  join_space
    (List.filter (fun cls => bool_decide (cls ∈ _classesToPreserve))
       (split_spaces (default [] class))).

Definition clean_attributes (a : list (string * jsstring))
  : list (string * jsstring) :=
  let className := preserved_classes (lookup_attr "class" a) in
  match className with
  | _ :: _ => Retag.set_attr a ("class"%string, className)
  | [] => remove_attr "class" a
  end.

(** then its element children. *)
Fixpoint _cleanClasses (node : Node) : Node :=
  match node with
  | Text _ => node
  | Elem t a r kids => Elem t (clean_attributes a) r (map _cleanClasses kids)
  end.

(** [_postProcessContent(articleContent)] *)
Definition _postProcessContent (articleContent : Node) : Node :=
  (* Readability cannot open relative uris so we convert them to absolute
     uris. *)
  let articleContent := _fixRelativeUris articleContent in
  let articleContent := _simplifyNestedElements articleContent in
  if negb _keepClasses then
    (* Remove classes. *)
    _cleanClasses articleContent
  else articleContent.

(** ** The articles on which post-processing is stable *)

(** [P] holds of a node and of all its descendants. *)
Fixpoint all_nodes (P : Node -> bool) (n : Node) : bool :=
  match n with
  | Text _ => P n
  | Elem _ _ _ kids => P n && forallb (all_nodes P) kids
  end.

(** A text of white space only. *)
Definition blank (s : jsstring) : bool := forallb isWhiteSpace s.

(** [href], [src], ... is left as it is when it is rewritten. *)
Definition stable (name : string) (f : jsstring -> jsstring)
  (a : list (string * jsstring)) : bool :=
  match lookup_attr name a with
  | Some (c :: v) => bool_decide (f (c :: v) = c :: v)
  | _ => true
  end.

(** The node is no [javascript:] link, and its URIs are left as they are
    when they are fixed again. *)
Definition uris_fixed (n : Node) : bool :=
  match n with
  | Text _ => true
  | Elem t a _ _ =>
      negb (is_javascript_link t a)
      && (if bool_decide (t = "A"%string) then stable "href" toAbsoluteURI a
          else if bool_decide (t ∈ MEDIA) then
            stable "src" toAbsoluteURI a && stable "poster" toAbsoluteURI a
            && stable "srcset" fix_srcset a
          else true)
  end.

Definition is_wrapper_tag (n : Node) : bool :=
  bool_decide (tagName n ∈ [Some "DIV"; Some "SECTION"]%string).

(** A [DIV] or [SECTION] is not without content, and the text nodes
    directly inside it that have no content are blank. *)
Definition sound_wrapper (n : Node) : bool :=
  negb (is_wrapper_tag n)
  || (negb (_isElementWithoutContent n)
      && forallb (fun k => match k with
                           | Text s => hasContent s || blank s
                           | Elem _ _ _ _ => true
                           end) (childNodes n)).

(** The conditions under which a second run changes nothing, on the
    descendants of the article once its URIs are fixed. *)
Definition stable_article (articleContent : Node) : bool :=
  forallb (fun k => all_nodes uris_fixed k && all_nodes sound_wrapper k)
    (childNodes (_fixRelativeUris articleContent)).

(** Nothing is left to simplify in a node that has a parent. *)
Definition settled_here (n : Node) : bool :=
  negb (is_wrapper_candidate n)
  || (negb (_isElementWithoutContent n) && negb (has_single_wrapper n)).

(** The elements with tag [tag] in the subtree of [n], itself
    included. *)
Definition count_tag (tag : string) (n : Node) : nat :=
  length ((if tagName_is n tag then [n] else [])
          ++ getElementsByTagName tag n).

(** What a node and the node left in its place have in common. *)
Record alike (k k' : Node) : Prop := {
  alike_text : forall s, k = Text s -> k' = Text s;
  alike_isText : isText k' = isText k;
  alike_wrapper : is_wrapper_tag k' = is_wrapper_tag k;
  alike_blank : blank (textContent k') = blank (textContent k);
  alike_count : forall tag, tag <> "DIV"%string -> tag <> "SECTION"%string ->
    count_tag tag k' = count_tag tag k }.

(** ** Properties *)

(** *** Attributes *)

Lemma lookup_set_attr_eq a k v :
  lookup_attr k (Retag.set_attr a (k, v)) = Some v.
Proof.
  induction a as [|[k' v'] a IH]; simpl.
  - by rewrite String.eqb_refl.
  - destruct (String.eqb_spec k' k) as [->|Hne]; simpl.
    + by rewrite String.eqb_refl.
    + by destruct (String.eqb_spec k' k).
Qed.

Lemma lookup_set_attr_ne a k v k' :
  k <> k' -> lookup_attr k' (Retag.set_attr a (k, v)) = lookup_attr k' a.
Proof.
  intros Hne. induction a as [|[k0 v0] a IH]; simpl.
  - by destruct (String.eqb_spec k k').
  - destruct (String.eqb_spec k0 k) as [->|Hk]; simpl.
    + destruct (String.eqb_spec k k'); done.
    + by rewrite IH.
Qed.

Lemma set_attr_same a k v :
  lookup_attr k a = Some v -> Retag.set_attr a (k, v) = a.
Proof.
  induction a as [|[k0 v0] a IH]; [done|]. simpl.
  destruct (String.eqb_spec k0 k) as [->|Hk]; [by intros [= ->]|].
  intros H. by rewrite IH.
Qed.

Lemma lookup_remove_attr_ne a k k' :
  k <> k' -> lookup_attr k' (remove_attr k a) = lookup_attr k' a.
Proof.
  intros Hne. induction a as [|[k0 v0] a IH]; [done|]. simpl.
  destruct (String.eqb_spec k0 k) as [->|Hk]; simpl.
  - by destruct (String.eqb_spec k k').
  - by rewrite IH.
Qed.

Lemma lookup_remove_attr_eq a k : lookup_attr k (remove_attr k a) = None.
Proof.
  induction a as [|[k0 v0] a IH]; [done|]. simpl.
  destruct (String.eqb_spec k0 k) as [->|Hk]; simpl; [done|].
  by destruct (String.eqb_spec k0 k).
Qed.

Lemma remove_attr_absent a k :
  lookup_attr k a = None -> remove_attr k a = a.
Proof.
  induction a as [|[k0 v0] a IH]; [done|]. simpl.
  destruct (String.eqb_spec k0 k) as [->|Hk]; [done|].
  intros H. simpl. by rewrite IH.
Qed.

(** *** Class cleaning *)

Lemma cleanClasses_unfold t a r kids :
  _cleanClasses (Elem t a r kids)
  = Elem t (clean_attributes a) r (map _cleanClasses kids).
Proof. reflexivity. Qed.

Lemma lookup_clean_attributes a k :
  k <> "class"%string ->
  lookup_attr k (clean_attributes a) = lookup_attr k a.
Proof.
  intros Hk. unfold clean_attributes. cbv zeta.
  destruct (preserved_classes _).
  - by apply lookup_remove_attr_ne.
  - by apply lookup_set_attr_ne.
Qed.

Lemma filter_filter {A} (f : A -> bool) l :
  List.filter f (List.filter f l) = List.filter f l.
Proof.
  induction l as [|x l IH]; [done|]. simpl.
  destruct (f x) eqn:E; simpl; rewrite ?E, IH; done.
Qed.

Lemma preserved_classes_none : preserved_classes None = [].
Proof.
  unfold preserved_classes, split_spaces. simpl.
  destruct (bool_decide _); reflexivity.
Qed.

Lemma preserved_classes_again class :
  preserved_classes class <> [] ->
  preserved_classes (Some (preserved_classes class)) = preserved_classes class.
Proof.
  unfold preserved_classes. simpl.
  set (keep := fun cls => bool_decide (cls ∈ _classesToPreserve)).
  intros Hne.
  assert (Hp : List.filter keep (split_spaces (default [] class)) <> [])
    by (intros Hp; by rewrite Hp in Hne).
  by rewrite (split_join_filter keep _ Hp), filter_filter.
Qed.

Lemma clean_attributes_cases a :
  preserved_classes (lookup_attr "class" a) = []
  /\ clean_attributes a = remove_attr "class" a
  \/ preserved_classes (lookup_attr "class" a) <> []
  /\ clean_attributes a
     = Retag.set_attr a ("class"%string,
                         preserved_classes (lookup_attr "class" a)).
Proof.
  unfold clean_attributes. cbv zeta.
  destruct (preserved_classes _); [by left|by right].
Qed.

Lemma clean_attributes_idempotent a :
  clean_attributes (clean_attributes a) = clean_attributes a.
Proof.
  destruct (clean_attributes_cases a) as [[Hj ->]|[Hj ->]].
  - destruct (clean_attributes_cases (remove_attr "class" a))
      as [[_ ->]|[Hne _]].
    + by rewrite remove_attr_absent by apply lookup_remove_attr_eq.
    + by rewrite lookup_remove_attr_eq, preserved_classes_none in Hne.
  - destruct (clean_attributes_cases
                (Retag.set_attr a ("class"%string,
                   preserved_classes (lookup_attr "class" a))))
      as [[He _]|[_ ->]].
    + by rewrite lookup_set_attr_eq, preserved_classes_again in He.
    + rewrite lookup_set_attr_eq, preserved_classes_again by done.
      apply set_attr_same, lookup_set_attr_eq.
Qed.

Lemma cleanClasses_idempotent n :
  _cleanClasses (_cleanClasses n) = _cleanClasses n.
Proof.
  induction n as [s|t a r kids IH] using node_induction; [done|].
  rewrite !cleanClasses_unfold, clean_attributes_idempotent. f_equal.
  rewrite map_map. apply map_ext_Forall, IH.
Qed.

(** *** What simplification keeps of a node *)

Lemma trim_blank s : (length (trim s) =? 0)%nat = blank s.
Proof.
  unfold trim, blank. induction s as [|c s IH]; [done|].
  simpl. destruct (isWhiteSpace c) eqn:Ec; [exact IH|].
  simpl. destruct (trimEnd s); [by rewrite Ec|done].
Qed.

Lemma blank_app s u : blank (s ++ u) = blank s && blank u.
Proof. apply forallb_app. Qed.

Lemma alike_children kids kids' :
  Forall2 alike kids kids' ->
  length (List.filter isElement kids') = length (List.filter isElement kids).
Proof.
  induction 1 as [|k k' kids kids' Hk _ IH]; [done|]. simpl.
  unfold isElement in *. rewrite (alike_isText _ _ Hk).
  destruct (isText k); simpl; by rewrite IH.
Qed.

Lemma alike_first_child kids kids' :
  Forall2 alike kids kids' ->
  from_option is_wrapper_tag false (List.filter isElement kids' !! 0%nat)
  = from_option is_wrapper_tag false (List.filter isElement kids !! 0%nat).
Proof.
  induction 1 as [|k k' kids kids' Hk _ IH]; [done|]. simpl.
  unfold isElement in *. rewrite (alike_isText _ _ Hk).
  destruct (isText k); simpl; [exact IH|apply (alike_wrapper _ _ Hk)].
Qed.

Lemma alike_textContent kids kids' :
  Forall2 alike kids kids' ->
  blank (flat_map textContent kids') = blank (flat_map textContent kids).
Proof.
  induction 1 as [|k k' kids kids' Hk _ IH]; [done|]. simpl.
  by rewrite !blank_app, IH, (alike_blank _ _ Hk).
Qed.

Lemma alike_descendants tag kids kids' t a r t' a' r' :
  tag <> "DIV"%string -> tag <> "SECTION"%string ->
  Forall2 alike kids kids' ->
  length (getElementsByTagName tag (Elem t' a' r' kids'))
  = length (getElementsByTagName tag (Elem t a r kids)).
Proof.
  intros H1 H2. simpl.
  induction 1 as [|k k' kids kids' Hk _ IH]; [done|].
  cbn [flat_map]. rewrite (length_app _ (flat_map _ kids')).
  rewrite (length_app _ (flat_map _ kids)), IH. f_equal.
  apply (alike_count _ _ Hk tag H1 H2).
Qed.

Lemma alike_text_nodes kids kids' :
  Forall2 alike kids kids' ->
  _someNode kids' (fun node => isText node && hasContent (textContent node))
  = _someNode kids (fun node => isText node && hasContent (textContent node)).
Proof.
  unfold _someNode.
  induction 1 as [|k k' kids kids' Hk _ IH]; [done|]. simpl. rewrite IH.
  f_equal. destruct k as [s|]; [by rewrite (alike_text _ _ Hk s)|].
  by rewrite (alike_isText _ _ Hk).
Qed.

Lemma isElementWithoutContent_alike t a r kids t' a' r' kids' :
  Forall2 alike kids kids' ->
  _isElementWithoutContent (Elem t' a' r' kids')
  = _isElementWithoutContent (Elem t a r kids).
Proof.
  intros H. unfold _isElementWithoutContent, children.
  rewrite !trim_blank.
  rewrite (alike_descendants "BR" kids kids' t a r t' a' r') by done.
  rewrite (alike_descendants "HR" kids kids' t a r t' a' r') by done.
  cbn [isElement isText childNodes textContent].
  by rewrite (alike_children _ _ H), (alike_textContent _ _ H).
Qed.

Lemma is_wrapper_tag_or n :
  is_wrapper_tag n = tagName_is n "DIV" || tagName_is n "SECTION".
Proof.
  unfold is_wrapper_tag, tagName_is.
  destruct (decide (tagName n = Some "DIV"%string)) as [->|H1]; [done|].
  destruct (decide (tagName n = Some "SECTION"%string)) as [->|H2]; [done|].
  rewrite !bool_decide_eq_false_2; [done..|].
  rewrite !elem_of_cons, elem_of_nil. tauto.
Qed.

Lemma has_single_wrapper_eq n :
  has_single_wrapper n
  = (length (children n) =? 1)%nat
    && from_option is_wrapper_tag false (children n !! 0%nat)
    && negb (_someNode (childNodes n)
               (fun node => isText node && hasContent (textContent node))).
Proof.
  unfold has_single_wrapper, Tables._hasSingleTagInsideElement.
  destruct (length (children n) =? 1)%nat; [|done].
  destruct (children n !! 0%nat) as [c|]; [|done]. simpl.
  rewrite is_wrapper_tag_or.
  by destruct (tagName_is c "DIV"), (tagName_is c "SECTION"),
    (_someNode (childNodes n) _).
Qed.

Lemma has_single_wrapper_alike t a r kids t' a' r' kids' :
  Forall2 alike kids kids' ->
  has_single_wrapper (Elem t' a' r' kids')
  = has_single_wrapper (Elem t a r kids).
Proof.
  intros H. rewrite !has_single_wrapper_eq. unfold children.
  cbn [childNodes].
  by rewrite (alike_children _ _ H), (alike_first_child _ _ H),
    (alike_text_nodes _ _ H).
Qed.

Lemma count_tag_eq tag n :
  count_tag tag n
  = ((if tagName_is n tag then 1 else 0)
     + length (getElementsByTagName tag n))%nat.
Proof. unfold count_tag. rewrite length_app. by destruct (tagName_is n tag). Qed.

Lemma alike_elem t a r kids a' r' kids' :
  Forall2 alike kids kids' ->
  alike (Elem t a r kids) (Elem t a' r' kids').
Proof.
  intros H. split; try done.
  - apply (alike_textContent _ _ H).
  - intros tag H1 H2. rewrite !count_tag_eq.
    by rewrite (alike_descendants tag kids kids' t a r t a' r').
Qed.

Lemma alike_refl k : alike k k.
Proof. by split. Qed.

(** *** Simplification settles an article *)

Lemma simplify_node_elem inherited t a r kids :
  simplify_node inherited (Elem t a r kids)
  = let a' := inherit inherited a in
    let node := Elem t a' r kids in
    let descend := Elem t a' r (omap (simplify_node []) kids) in
    if is_wrapper_candidate node then
      if _isElementWithoutContent node then None
      else if has_single_wrapper node then
        match children node with
        | child :: _ => simplify_node a' child
        | [] => Some descend
        end
      else Some descend
    else Some descend.
Proof.
  cbn [simplify_node]. cbv zeta.
  destruct (is_wrapper_candidate _); [|done].
  destruct (_isElementWithoutContent _); [done|].
  destruct (has_single_wrapper _); [|done].
  unfold children. cbn [childNodes].
  generalize (Elem t (inherit inherited a) r (omap (simplify_node []) kids)).
  intros descend. induction kids as [|[s|t' a' r' kids'] kids IH]; done.
Qed.

Lemma candidate_is_wrapper n :
  is_wrapper_candidate n = true -> is_wrapper_tag n = true.
Proof. unfold is_wrapper_candidate. by intros [? _]%andb_true_iff. Qed.

Lemma wrapper_not_counted tag n :
  tag <> "DIV"%string -> tag <> "SECTION"%string ->
  is_wrapper_tag n = true -> tagName_is n tag = false.
Proof.
  unfold is_wrapper_tag, tagName_is. intros H1 H2 H%bool_decide_eq_true.
  apply bool_decide_eq_false. intros E. rewrite E in H.
  rewrite !elem_of_cons, elem_of_nil in H.
  destruct H as [[= ->]|[[= ->]|[]]]; congruence.
Qed.

(** A node without element child, and only blank text in it. *)
Lemma no_child kids :
  List.filter isElement kids = [] ->
  forallb (fun k => match k with
                    | Text s => hasContent s || blank s
                    | Elem _ _ _ _ => true
                    end) kids = true ->
  _someNode kids (fun node => isText node && hasContent (textContent node))
  = false ->
  blank (flat_map textContent kids) = true
  /\ forall tag t a r, getElementsByTagName tag (Elem t a r kids) = [].
Proof.
  unfold _someNode.
  induction kids as [|[s|t' a' r' kids'] kids IH]; [done| |done].
  cbn [List.filter isElement isText negb forallb existsb textContent andb].
  intros Hc [Hs Hall]%andb_true_iff [Hn Hex]%orb_false_iff.
  rewrite Hn in Hs. simpl in Hs.
  destruct (IH Hc Hall Hex) as (Hb & Hcount).
  split; [cbn [flat_map textContent]; by rewrite blank_app, Hs, Hb|].
  intros tag t a r. apply (Hcount tag t a r).
Qed.

(** A node with one element child, and only blank text around it. *)
Lemma only_child kids c :
  List.filter isElement kids = [c] ->
  forallb (fun k => match k with
                    | Text s => hasContent s || blank s
                    | Elem _ _ _ _ => true
                    end) kids = true ->
  _someNode kids (fun node => isText node && hasContent (textContent node))
  = false ->
  c ∈ kids /\ isText c = false
  /\ blank (flat_map textContent kids) = blank (textContent c)
  /\ forall tag t a r,
       length (getElementsByTagName tag (Elem t a r kids)) = count_tag tag c.
Proof.
  unfold _someNode.
  induction kids as [|[s|t' a' r' kids'] kids IH]; [done| |].
  - cbn [List.filter isElement isText negb forallb existsb textContent andb].
    intros Hc [Hs Hall]%andb_true_iff [Hn Hex]%orb_false_iff.
    rewrite Hn in Hs. simpl in Hs.
    destruct (IH Hc Hall Hex) as (Hin & Hel & Hb & Hcount).
    split_and!; [by right|done| |].
    + cbn [flat_map textContent]. by rewrite blank_app, Hs, Hb.
    + intros tag t a r. by rewrite <- (Hcount tag t a r).
  - cbn [List.filter isElement isText negb forallb existsb andb orb].
    intros [= <- Hrest] Hall Hex.
    destruct (no_child kids Hrest Hall Hex) as [Hb Hcount].
    split_and!; [by left|done| |].
    + cbn [flat_map]. by rewrite blank_app, Hb, andb_true_r.
    + intros tag t a r. unfold count_tag.
      change (getElementsByTagName tag (Elem t a r (Elem t' a' r' kids' :: kids)))
        with (((if tagName_is (Elem t' a' r' kids') tag
                then [Elem t' a' r' kids'] else [])
               ++ getElementsByTagName tag (Elem t' a' r' kids'))
              ++ getElementsByTagName tag (Elem t a r kids)).
      by rewrite Hcount, app_nil_r.
Qed.

Lemma forallb_elem_of {A} (f : A -> bool) l x :
  forallb f l = true -> x ∈ l -> f x = true.
Proof.
  intros H Hx. by apply (proj1 (forallb_forall f l) H), list_elem_of_In.
Qed.

Lemma simplify_kids kids :
  Forall (fun k => forall inherited, all_nodes sound_wrapper k = true ->
            exists k', simplify_node inherited k = Some k' /\ alike k k'
                       /\ all_nodes settled_here k' = true) kids ->
  forallb (all_nodes sound_wrapper) kids = true ->
  Forall2 alike kids (omap (simplify_node []) kids)
  /\ forallb (all_nodes settled_here) (omap (simplify_node []) kids) = true.
Proof.
  induction 1 as [|k kids Hk _ IH]; [done|].
  cbn [forallb]. intros [Hs Hall]%andb_true_iff.
  destruct (Hk [] Hs) as (k' & Hk' & Hal & Hset).
  destruct (IH Hall) as [H2 Hf]. cbn [omap list_omap]. rewrite Hk'.
  split; [by constructor|]. cbn [forallb]. by rewrite Hset.
Qed.

(** Under the conditions on the wrappers, no node is removed, and what
    is left of a node is like it and has nothing left to simplify. *)
Lemma simplify_settles k inherited :
  all_nodes sound_wrapper k = true ->
  exists k', simplify_node inherited k = Some k' /\ alike k k'
             /\ all_nodes settled_here k' = true.
Proof.
  revert inherited. induction k as [s|t a r kids IH] using node_induction;
    intros inherited Hsound.
  - exists (Text s). split_and!; [done|apply alike_refl|done].
  - cbn [all_nodes] in Hsound. apply andb_true_iff in Hsound as [Hn Hkids].
    destruct (simplify_kids kids IH Hkids) as [Hal Hset].
    rewrite simplify_node_elem. cbv zeta.
    set (a' := inherit inherited a).
    set (kids' := omap (simplify_node []) kids) in *.
    assert (Hdescend : alike (Elem t a r kids) (Elem t a' r kids'))
      by by apply alike_elem.
    assert (He : _isElementWithoutContent (Elem t a' r kids')
                 = _isElementWithoutContent (Elem t a r kids))
      by by apply isElementWithoutContent_alike.
    assert (Hw : has_single_wrapper (Elem t a' r kids')
                 = has_single_wrapper (Elem t a' r kids))
      by by apply has_single_wrapper_alike.
    assert (Hc : is_wrapper_candidate (Elem t a' r kids')
                 = is_wrapper_candidate (Elem t a' r kids)) by done.
    change (_isElementWithoutContent (Elem t a' r kids))
      with (_isElementWithoutContent (Elem t a r kids)).
    destruct (is_wrapper_candidate (Elem t a' r kids)) eqn:Ec.
    2: { eexists; split_and!; [done|done|]. cbn [all_nodes].
         rewrite Hset, andb_true_r. unfold settled_here. by rewrite Hc. }
    assert (Hwt : is_wrapper_tag (Elem t a r kids) = true)
      by apply (candidate_is_wrapper _ Ec).
    unfold sound_wrapper in Hn. rewrite Hwt in Hn. cbn [negb orb] in Hn.
    apply andb_true_iff in Hn as [Hne Htexts]. apply negb_true_iff in Hne.
    rewrite Hne.
    destruct (has_single_wrapper (Elem t a' r kids)) eqn:Es.
    2: { eexists; split_and!; [done|done|]. cbn [all_nodes].
         rewrite Hset, andb_true_r. unfold settled_here.
         rewrite He, Hw, Hne. apply orb_true_r. }
    rewrite has_single_wrapper_eq in Es.
    apply andb_true_iff in Es as [[Hlen Hfirst]%andb_true_iff Hsome].
    apply negb_true_iff in Hsome.
    unfold children in *. cbn [childNodes] in *.
    destruct (List.filter isElement kids) as [|c [|]] eqn:Ech; try done.
    destruct (only_child kids c Ech Htexts Hsome) as (Hin & Hel & Hb & Hcount).
    rewrite Forall_forall in IH.
    destruct (IH c Hin a' (forallb_elem_of _ _ _ Hkids Hin))
      as (c' & Hc' & Halc & Hsetc).
    exists c'. split_and!; [done| |done].
    cbn [from_option lookup] in Hfirst. split.
    + done.
    + by rewrite (alike_isText _ _ Halc).
    + by rewrite (alike_wrapper _ _ Halc), Hwt.
    + by rewrite (alike_blank _ _ Halc).
    + intros tag H1 H2. rewrite (alike_count _ _ Halc tag H1 H2).
      rewrite (count_tag_eq tag (Elem t a r kids)).
      by rewrite wrapper_not_counted, Hcount.
Qed.

(** Where nothing is left to simplify, simplification changes nothing. *)
Lemma simplify_settled k :
  all_nodes settled_here k = true -> simplify_node [] k = Some k.
Proof.
  induction k as [s|t a r kids IH] using node_induction; [done|].
  cbn [all_nodes]. intros [Hn Hkids]%andb_true_iff.
  assert (Hk : omap (simplify_node []) kids = kids).
  { clear Hn. induction IH as [|k kids Hk _ IHkids]; [done|].
    cbn [forallb] in Hkids. apply andb_true_iff in Hkids as [H1 H2].
    cbn [omap list_omap]. rewrite (Hk H1). f_equal. by apply IHkids. }
  rewrite simplify_node_elem. cbv zeta. cbn [inherit fold_left]. rewrite Hk.
  unfold settled_here in Hn.
  destruct (is_wrapper_candidate _); [|done]. cbn [negb orb] in Hn.
  apply andb_true_iff in Hn as [->%negb_true_iff ->%negb_true_iff]. done.
Qed.

Lemma simplify_settled_kids kids :
  forallb (all_nodes settled_here) kids = true ->
  omap (simplify_node []) kids = kids.
Proof.
  induction kids as [|k kids IH]; [done|]. cbn [forallb].
  intros [H1 H2]%andb_true_iff. cbn [omap list_omap].
  by rewrite (simplify_settled k H1), (IH H2).
Qed.

(** Class cleaning leaves a node like it was. *)
Lemma cleanClasses_alike k : alike k (_cleanClasses k).
Proof.
  induction k as [s|t a r kids IH] using node_induction;
    [apply alike_refl|].
  rewrite cleanClasses_unfold. apply alike_elem.
  induction IH; by constructor.
Qed.

Lemma cleanClasses_alike_kids kids :
  Forall2 alike kids (map _cleanClasses kids).
Proof. induction kids; constructor; [apply cleanClasses_alike|done]. Qed.

Lemma cleanClasses_settled k :
  all_nodes settled_here k = true ->
  all_nodes settled_here (_cleanClasses k) = true.
Proof.
  induction k as [s|t a r kids IH] using node_induction; [done|].
  rewrite cleanClasses_unfold. cbn [all_nodes].
  intros [Hn Hkids]%andb_true_iff. apply andb_true_iff. split.
  - unfold settled_here in *.
    rewrite (isElementWithoutContent_alike t a r kids),
      (has_single_wrapper_alike t (clean_attributes a) r kids)
      by apply cleanClasses_alike_kids.
    replace (is_wrapper_candidate
               (Elem t (clean_attributes a) r (map _cleanClasses kids)))
      with (is_wrapper_candidate (Elem t a r kids)).
    + destruct (is_wrapper_candidate (Elem t a r kids)); [|done].
      cbn [negb orb] in *.
      by replace (has_single_wrapper (Elem t (clean_attributes a) r kids))
        with (has_single_wrapper (Elem t a r kids)).
    + unfold is_wrapper_candidate, id, getAttribute. cbn [attributes tagName].
      by rewrite lookup_clean_attributes.
  - clear Hn. induction IH as [|k kids Hk _ IHkids]; [done|].
    cbn [forallb] in Hkids. apply andb_true_iff in Hkids as [H1 H2].
    cbn [map forallb]. by rewrite (Hk H1), (IHkids H2).
Qed.

(** *** URIs that are fixed stay so *)

Lemma rewrite_attr_stable name f a :
  stable name f a = true -> rewrite_attr name f (lookup_attr name a) a = a.
Proof.
  unfold stable, rewrite_attr.
  destruct (lookup_attr name a) as [[|c v]|] eqn:E; [done| |done].
  intros ->%bool_decide_eq_true. by apply set_attr_same.
Qed.

Lemma fix_attributes_fixed t a r kids :
  uris_fixed (Elem t a r kids) = true -> fix_attributes t a = a.
Proof.
  unfold uris_fixed, fix_attributes. intros [_ H]%andb_true_iff.
  destruct (bool_decide (t = "A"%string)); [by apply rewrite_attr_stable|].
  destruct (bool_decide (t ∈ MEDIA)); [|done]. cbv zeta.
  apply andb_true_iff in H as [[H1 H2]%andb_true_iff H3].
  rewrite (rewrite_attr_stable _ _ _ H1), (rewrite_attr_stable _ _ _ H2).
  by apply rewrite_attr_stable.
Qed.

Lemma fix_uris_fixed k :
  all_nodes uris_fixed k = true -> fix_uris k = k.
Proof.
  induction k as [s|t a r kids IH] using node_induction; [done|].
  cbn [all_nodes]. intros [Hn Hkids]%andb_true_iff. cbn [fix_uris].
  rewrite (fix_attributes_fixed t a r kids Hn).
  unfold uris_fixed in Hn. apply andb_true_iff in Hn as [->%negb_true_iff _].
  f_equal. clear -IH Hkids. induction IH as [|k kids Hk _ IHkids]; [done|].
  cbn [forallb] in Hkids. apply andb_true_iff in Hkids as [H1 H2].
  cbn [map]. by rewrite (Hk H1), (IHkids H2).
Qed.

Lemma uris_fixed_wrapper t a r kids a' r' kids' :
  is_wrapper_tag (Elem t a r kids) = true ->
  uris_fixed (Elem t a' r' kids') = true.
Proof.
  unfold is_wrapper_tag. cbn [tagName]. intros H%bool_decide_eq_true.
  rewrite !elem_of_cons, elem_of_nil in H.
  by destruct H as [[= ->]|[[= ->]|[]]].
Qed.

Lemma simplify_uris_fixed k inherited k' :
  inherited = [] \/ is_wrapper_tag k = true ->
  all_nodes uris_fixed k = true ->
  simplify_node inherited k = Some k' ->
  all_nodes uris_fixed k' = true.
Proof.
  revert inherited k'.
  induction k as [s|t a r kids IH] using node_induction;
    intros inherited k' Hinh Hfixed; [by intros [= <-]|].
  rewrite simplify_node_elem. cbv zeta.
  cbn [all_nodes] in Hfixed. apply andb_true_iff in Hfixed as [Hn Hkids].
  set (a' := inherit inherited a).
  assert (Hdescend : all_nodes uris_fixed
            (Elem t a' r (omap (simplify_node []) kids)) = true).
  { cbn [all_nodes]. apply andb_true_iff. split.
    - destruct Hinh as [->|Hw]; [done|by apply (uris_fixed_wrapper t a r kids)].
    - clear -IH Hkids. induction IH as [|k kids Hk _ IHkids]; [done|].
      cbn [forallb] in Hkids. apply andb_true_iff in Hkids as [H1 H2].
      cbn [omap list_omap].
      destruct (simplify_node [] k) as [k'|] eqn:E; [|by apply IHkids].
      cbn [forallb]. rewrite (Hk [] k' (or_introl eq_refl) H1 E).
      by apply IHkids. }
  destruct (is_wrapper_candidate _); [|by intros [= <-]].
  destruct (_isElementWithoutContent _); [done|].
  destruct (has_single_wrapper _) eqn:Es; [|by intros [= <-]].
  rewrite has_single_wrapper_eq in Es.
  apply andb_true_iff in Es as [[Hlen Hfirst]%andb_true_iff _].
  destruct (children (Elem t a' r kids)) as [|c l] eqn:Ech; [done|].
  cbn [from_option lookup] in Hfirst.
  assert (Hin : c ∈ kids).
  { apply list_elem_of_In.
    apply (proj1 (filter_In isElement c kids)).
    unfold children in Ech. cbn [childNodes] in Ech. rewrite Ech. by left. }
  rewrite Forall_forall in IH.
  apply (IH c Hin a' k' (or_intror Hfirst)), (forallb_elem_of _ _ _ Hkids Hin).
Qed.

Lemma cleanClasses_uris_fixed k :
  all_nodes uris_fixed k = true ->
  all_nodes uris_fixed (_cleanClasses k) = true.
Proof.
  induction k as [s|t a r kids IH] using node_induction; [done|].
  rewrite cleanClasses_unfold. cbn [all_nodes].
  intros [Hn Hkids]%andb_true_iff. apply andb_true_iff. split.
  - unfold uris_fixed, is_javascript_link, stable in *.
    by rewrite !lookup_clean_attributes.
  - clear Hn. induction IH as [|k kids Hk _ IHkids]; [done|].
    cbn [forallb] in Hkids. apply andb_true_iff in Hkids as [H1 H2].
    cbn [map forallb]. by rewrite (Hk H1), (IHkids H2).
Qed.

(** *** Post-processing twice *)

Lemma fix_uris_fixed_kids kids :
  forallb (all_nodes uris_fixed) kids = true -> map fix_uris kids = kids.
Proof.
  induction kids as [|k kids IH]; [done|]. cbn [forallb].
  intros [H1 H2]%andb_true_iff. cbn [map].
  by rewrite (fix_uris_fixed k H1), (IH H2).
Qed.

Lemma simplify_article kids :
  forallb (fun k => all_nodes uris_fixed k && all_nodes sound_wrapper k) kids
  = true ->
  forallb (all_nodes uris_fixed) (omap (simplify_node []) kids) = true
  /\ forallb (all_nodes settled_here) (omap (simplify_node []) kids) = true.
Proof.
  induction kids as [|k kids IH]; [done|]. cbn [forallb].
  intros [[Hf Hs]%andb_true_iff [IH1 IH2]%IH]%andb_true_iff.
  destruct (simplify_settles k [] Hs) as (k' & Hk' & _ & Hset).
  cbn [omap list_omap]. rewrite Hk'. cbn [forallb].
  rewrite (simplify_uris_fixed k [] k' (or_introl eq_refl) Hf Hk').
  by rewrite Hset.
Qed.

Lemma cleanClasses_kids kids :
  forallb (all_nodes uris_fixed) kids = true ->
  forallb (all_nodes settled_here) kids = true ->
  forallb (all_nodes uris_fixed) (map _cleanClasses kids) = true
  /\ forallb (all_nodes settled_here) (map _cleanClasses kids) = true.
Proof.
  induction kids as [|k kids IH]; [done|]. cbn [forallb map].
  intros [H1 H2]%andb_true_iff [H3 H4]%andb_true_iff.
  destruct (IH H2 H4) as [-> ->].
  by rewrite (cleanClasses_uris_fixed k H1), (cleanClasses_settled k H3).
Qed.

Lemma postProcessContent_twice articleContent :
  stable_article articleContent = true ->
  _postProcessContent (_postProcessContent articleContent)
  = _postProcessContent articleContent.
Proof.
  destruct articleContent as [s|t a r kids];
    [unfold _postProcessContent; by destruct _keepClasses|].
  unfold stable_article. cbn [_fixRelativeUris childNodes].
  intros [Hf Hs]%simplify_article.
  unfold _postProcessContent.
  cbn [_fixRelativeUris _simplifyNestedElements].
  set (kids2 := omap (simplify_node []) (map fix_uris kids)) in *.
  destruct _keepClasses; cbn [negb].
  - cbn [_fixRelativeUris _simplifyNestedElements].
    by rewrite (fix_uris_fixed_kids kids2 Hf), (simplify_settled_kids kids2 Hs).
  - rewrite cleanClasses_unfold.
    destruct (cleanClasses_kids kids2 Hf Hs) as [Hf' Hs'].
    cbn [_fixRelativeUris _simplifyNestedElements].
    rewrite (fix_uris_fixed_kids _ Hf'), (simplify_settled_kids _ Hs').
    rewrite <- cleanClasses_unfold. apply cleanClasses_idempotent.
Qed.

End PostProcessContent.

(** Modelled from the spec: the serializer is outside the analysed
    sources; by default it is the [innerHTML] of the element.  A plain
    rendering, without escaping: *)
Fixpoint outerHTML (n : Node) : jsstring :=
  match n with
  | Text s => s
  | Elem t a _ kids =>
      lit "<" ++ lit t
      ++ flat_map (fun kv => lit " " ++ lit (fst kv) ++ lit "=" ++ [0x22%N]
                             ++ snd kv ++ [0x22%N]) a
      ++ lit ">" ++ flat_map outerHTML kids ++ lit "</" ++ lit t ++ lit ">"
  end.

Definition innerHTML (n : Node) : jsstring := flat_map outerHTML (childNodes n).

(** A sample of the host's URL constructor: an absolute [http] URL is
    returned as it is, the empty string is refused, anything else is
    appended to the base. *)
Definition sample_URL (uri base : jsstring) : completion jsstring :=
  match uri with
  | [] => Thrown (lit "TypeError")
  | _ :: _ => Normal (if startsWith (lit "http") uri then uri else base ++ uri)
  end.

Definition sample_post : Node -> Node :=
  _postProcessContent (lit "http://x.test/") (lit "http://x.test/") sample_URL
    [lit "page"] false ends_in_non_space.

(** [<div><div id="readability-page-1" class="page"><div><div></div><div
    class="body">text</div></div></div></div>] *)
Definition article_with_empty_div : Node :=
  Elem "DIV" [] None
    [Elem "DIV" [("id"%string, lit "readability-page-1");
                 ("class"%string, lit "page")] None
       [Elem "DIV" [] None
          [Elem "DIV" [] None [];
           Elem "DIV" [("class"%string, lit "body")] None [Text (lit "text")]]]].

(** C7, counterexample. The first run removes the empty [div], which
    leaves its parent with a single [div] child; the second run replaces
    that parent by the child. *)
Lemma post_processing_twice_differs :
  innerHTML (sample_post article_with_empty_div)
  = lit "<DIV id=" ++ [0x22%N] ++ lit "readability-page-1" ++ [0x22%N]
    ++ lit " class=" ++ [0x22%N] ++ lit "page" ++ [0x22%N]
    ++ lit "><DIV><DIV>text</DIV></DIV></DIV>"
  /\ innerHTML (sample_post (sample_post article_with_empty_div))
  = lit "<DIV id=" ++ [0x22%N] ++ lit "readability-page-1" ++ [0x22%N]
    ++ lit " class=" ++ [0x22%N] ++ lit "page" ++ [0x22%N]
    ++ lit "><DIV>text</DIV></DIV>"
  /\ sample_post (sample_post article_with_empty_div)
     <> sample_post article_with_empty_div.
Proof. repeat split; by vm_compute. Qed.

(** The rewriting of a [srcset] and of links and images on samples. *)
Example fix_srcset_sample :
  fix_srcset (lit "http://x.test/a/") (lit "http://x.test/a/") sample_URL
    (lit "small.jpg 1x, big.jpg 2x")
  = lit "http://x.test/a/small.jpg 1x, http://x.test/a/big.jpg 2x".
Proof. by vm_compute. Qed.

Example fix_srcset_backtracks :
  fix_srcset (lit "http://x.test/a/") (lit "http://x.test/a/") sample_URL
    (lit "one.jpg,two.jpg zzz")
  = lit "http://x.test/a/one.jpg,two.jpg http://x.test/a/zzz".
Proof. by vm_compute. Qed.

Example javascript_link_sample :
  sample_post
    (Elem "DIV" [] None
       [Elem "P" [] None
          [Elem "A" [("href"%string, lit "javascript:foo()")] None
             [Text (lit "click")];
           Elem "A" [("href"%string, lit "#top")] None [Text (lit "top")];
           Elem "IMG" [("src"%string, lit "pic.jpg")] None []]])
  = Elem "DIV" [] None
       [Elem "P" [] None
          [Text (lit "click");
           Elem "A" [("href"%string, lit "#top")] None [Text (lit "top")];
           Elem "IMG" [("src"%string, lit "http://x.test/pic.jpg")] None []]].
Proof. by vm_compute. Qed.

(** C7 (as amended). Post-processing twice gives the same tree, and so
    the same serialized output, as post-processing once, for an article
    in which, once its relative URIs are fixed, no link is a
    [javascript:] link, every [href], [src], [poster] and [srcset] is
    left as it is when it is resolved again, no [DIV] or [SECTION] is
    without content, and every text node directly inside a [DIV] or
    [SECTION] has content or is blank. *)
Theorem post_processing_idempotent
  (baseURI documentURI : jsstring)
  (URL_href : jsstring -> jsstring -> completion jsstring)
  (_classesToPreserve : list jsstring) (_keepClasses : bool)
  (hasContent : jsstring -> bool) (articleContent : Node) :
  stable_article baseURI documentURI URL_href hasContent articleContent
  = true ->
  let post := _postProcessContent baseURI documentURI URL_href
                _classesToPreserve _keepClasses hasContent in
  post (post articleContent) = post articleContent
  /\ innerHTML (post (post articleContent)) = innerHTML (post articleContent).
Proof.
  intros H post.
  assert (Heq : post (post articleContent) = post articleContent)
    by by apply postProcessContent_twice.
  split; [done|by rewrite Heq].
Qed.

(** [<div><div id="readability-page-1" class="page"><div class="outer">
    <section class="inner page"><p><a href="a.html">link</a><img
    srcset="small.jpg 1x, big.jpg 2x"></p></section></div></div></div>] *)
Definition nested_article : Node :=
  Elem "DIV" [] None
    [Elem "DIV" [("id"%string, lit "readability-page-1");
                 ("class"%string, lit "page")] None
       [Elem "DIV" [("class"%string, lit "outer")] None
          [Text (lit " ");
           Elem "SECTION" [("class"%string, lit "inner page")] None
             [Elem "P" [] None
                [Elem "A" [("href"%string, lit "a.html")] None
                   [Text (lit "link")];
                 Elem "IMG" [("srcset"%string,
                              lit "small.jpg 1x, big.jpg 2x")] None []]]]]].

Example nested_article_once :
  innerHTML (sample_post nested_article)
  = lit "<DIV id=" ++ [0x22%N] ++ lit "readability-page-1" ++ [0x22%N]
    ++ lit " class=" ++ [0x22%N] ++ lit "page" ++ [0x22%N]
    ++ lit "><SECTION><P><A href=" ++ [0x22%N]
    ++ lit "http://x.test/a.html" ++ [0x22%N]
    ++ lit ">link</A><IMG srcset=" ++ [0x22%N]
    ++ lit "http://x.test/small.jpg 1x, http://x.test/big.jpg 2x"
    ++ [0x22%N] ++ lit "></IMG></P></SECTION></DIV>".
Proof. by vm_compute. Qed.

Lemma post_processing_idempotent_witness :
  stable_article (lit "http://x.test/") (lit "http://x.test/") sample_URL
    ends_in_non_space nested_article = true
  /\ sample_post (sample_post nested_article) = sample_post nested_article
  /\ innerHTML (sample_post (sample_post nested_article))
     = innerHTML (sample_post nested_article).
Proof.
  split; [by vm_compute|].
  apply (post_processing_idempotent (lit "http://x.test/")
           (lit "http://x.test/") sample_URL [lit "page"] false
           ends_in_non_space nested_article).
  by vm_compute.
Defined.

End PostProcess.

(* ================================================================== *)
(** * The retry controller of [_grabArticle] *)
(* ================================================================== *)

Module Retry.

Local Open Scope Z_scope.

(** JavaScript's bitwise operators work on the 32-bit two's complement
  reading of their operands. *)
Definition ToInt32 (z : Z) : Z := (z + 2 ^ 31) mod 2 ^ 32 - 2 ^ 31.

Definition bitand (a b : Z) : Z := Z.land (ToInt32 a) (ToInt32 b).
Definition bitor (a b : Z) : Z := Z.lor (ToInt32 a) (ToInt32 b).
Definition bitnot (a : Z) : Z := Z.lnot (ToInt32 a).

(** [Array.prototype.sort] with a comparator is a stable sort; [insert]
  puts [x] before the first element it does not compare greater than. *)
Section Sort.
Context {A : Type} (cmp : A -> A -> Z).

Fixpoint insert (x : A) (l : list A) : list A :=
  match l with
  | [] => [x]
  | y :: l' => if 0 <? cmp x y then y :: insert x l' else x :: y :: l'
  end.

Definition sort (l : list A) : list A := foldr insert [] l.
End Sort.

Section Controller.

(** [Html] is what [page.innerHTML] holds, [Element] the type of the
    [articleContent] that one extraction pass builds. *)
Variables Html Element : Type.

(** The three filtering flags.  Their numeric values are not part of the
    analysed sources; the hypotheses of the theorem say what the
    controller needs of them. *)
Variables FLAG_STRIP_UNLIKELYS FLAG_WEIGHT_CLASSES FLAG_CLEAN_CONDITIONALLY : Z.

(** [this._charThreshold]. *)
Variable _charThreshold : Z.

(** The body of the [while (true)] loop before the length check: the
    traversal, scoring, sibling assembly and [_prepArticle], run on the
    current page under the current flags.  It yields [articleContent]
    and leaves the page mutated. *)
Variable extract : Z -> Html -> Element * Html.

(** [this._getInnerText(articleContent, true).length]. *)
Variable innerTextLength : Element -> Z.

Record Attempt := { articleContent : Element; textLength : Z }.

Record State := {
  _flags : Z;
  _attempts : list Attempt;
  page : Html                     (* page.innerHTML *)
}.

(** The comparator [function (a, b) { return b.textLength - a.textLength; }]. *)
Definition longest_first (a b : Attempt) : Z := textLength b - textLength a.

(** [this._flags = FLAG_STRIP_UNLIKELYS | FLAG_WEIGHT_CLASSES |
    FLAG_CLEAN_CONDITIONALLY] *)
Definition initial_flags : Z :=
  bitor (bitor FLAG_STRIP_UNLIKELYS FLAG_WEIGHT_CLASSES) FLAG_CLEAN_CONDITIONALLY.

Definition _flagIsActive (st : State) (flag : Z) : bool :=
  0 <? bitand (_flags st) flag.

Definition _removeFlag (st : State) (flag : Z) : State :=
  {| _flags := bitand (_flags st) (bitnot flag);
     _attempts := _attempts st;
     page := page st |}.

(** What one turn of the loop does. *)
Inductive Turn :=
| Again (st : State)              (* parseSuccessful = false: loop *)
| Return (a : Element)            (* parseSuccessful = true *)
| ReturnNull                      (* return null; *)
| Throw.                          (* a TypeError *)

(** Modelled from the spec: the branch taken when no flag is left.  The
    analysed sources quote it in part, with the sort and the assignment of
    [this._attempts[0].articleContent]; by the spec's error handling
    (ExtractionFailed: all retry passes exhausted and even the longest
    attempt contains no content; returns null) the lines between the two
    are [if (!this._attempts[0].textLength) { return null; }]. *)
Definition fallback (attempts : list Attempt) : Turn :=
  (* this._attempts.sort(function (a, b) {
       return b.textLength - a.textLength; }); *)
  match sort longest_first attempts with
  | best :: _ =>                              (* this._attempts[0] *)
      if textLength best =? 0 then ReturnNull
      else Return (articleContent best)
  | [] => Throw
  end.

Definition turn (pageCacheHtml : Html) (st : State) : Turn :=
  let '(articleContent, page') := extract (_flags st) (page st) in
  let textLength := innerTextLength articleContent in
  if textLength <? _charThreshold then
    (* page.innerHTML = pageCacheHtml; this._attempts.push(...) *)
    let st :=
      {| _flags := _flags st;
         _attempts := _attempts st ++
                      [{| articleContent := articleContent;
                          textLength := textLength |}];
         page := pageCacheHtml |} in
    if _flagIsActive st FLAG_STRIP_UNLIKELYS then
      Again (_removeFlag st FLAG_STRIP_UNLIKELYS)
    else if _flagIsActive st FLAG_WEIGHT_CLASSES then
      Again (_removeFlag st FLAG_WEIGHT_CLASSES)
    else if _flagIsActive st FLAG_CLEAN_CONDITIONALLY then
      Again (_removeFlag st FLAG_CLEAN_CONDITIONALLY)
    else fallback (_attempts st)
  else Return articleContent.

(** A run of the loop. [OutOfFuel] is the bounded model giving up, which
    the JavaScript loop never does. *)
Inductive Outcome :=
| Done (a : Element)
| Null                            (* _grabArticle returns null *)
| Threw
| OutOfFuel.

(** [loop] also records the state each turn started from. *)
Fixpoint loop (fuel : nat) (pageCacheHtml : Html) (st : State)
  : list State * Outcome :=
  match fuel with
  | O => ([], OutOfFuel)
  | S fuel =>
      match turn pageCacheHtml st with
      | Again st' =>
          let '(tr, o) := loop fuel pageCacheHtml st' in (st :: tr, o)
      | Return a => ([st], Done a)
      | ReturnNull => ([st], Null)
      | Throw => ([st], Threw)
      end
  end.

Definition _grabArticle (fuel : nat) (page0 : Html) : list State * Outcome :=
  (* var pageCacheHtml = page.innerHTML; *)
  let pageCacheHtml := page0 in
  loop fuel pageCacheHtml
       {| _flags := initial_flags; _attempts := []; page := page0 |}.

(** ** What the claim says, in its own terms *)

(** The flags in the order in which they are given up. *)
Definition relaxation_order : list Z :=
  [FLAG_STRIP_UNLIKELYS; FLAG_WEIGHT_CLASSES; FLAG_CLEAN_CONDITIONALLY].

(** The flag word after the first [k] flags of that order are cleared. *)
Fixpoint relaxed (k : nat) : Z :=
  match k with
  | O => initial_flags
  | S k' => bitand (relaxed k') (bitnot (nth k' relaxation_order 0))
  end.

(** The attempt that pass number [k] produces from the pristine page. *)
Definition attempt_of (page0 : Html) (k : nat) : Attempt :=
  let a := fst (extract (relaxed k) page0) in
  {| articleContent := a; textLength := innerTextLength a |}.


(** ** Properties *)

Lemma ToInt32_id z : - 2 ^ 31 <= z < 2 ^ 31 -> ToInt32 z = z.
Proof.
  intros Hz. unfold ToInt32.
  rewrite Z.mod_small by lia. lia.
Qed.


Lemma bit_of_disjoint a b n :
  Z.land a b = 0 -> Z.testbit a n && Z.testbit b n = false.
Proof. intros H. rewrite <- Z.land_spec, H. apply Z.bits_0. Qed.

Section Sorting.
Context {A : Type} (len : A -> Z).


End Sorting.

(** The flags are distinct bits of a non-negative 32-bit word. *)
Hypothesis strip_range : 0 < FLAG_STRIP_UNLIKELYS < 2 ^ 31.
Hypothesis weight_range : 0 < FLAG_WEIGHT_CLASSES < 2 ^ 31.
Hypothesis clean_range : 0 < FLAG_CLEAN_CONDITIONALLY < 2 ^ 31.
Hypothesis strip_weight : Z.land FLAG_STRIP_UNLIKELYS FLAG_WEIGHT_CLASSES = 0.
Hypothesis strip_clean : Z.land FLAG_STRIP_UNLIKELYS FLAG_CLEAN_CONDITIONALLY = 0.
Hypothesis weight_clean : Z.land FLAG_WEIGHT_CLASSES FLAG_CLEAN_CONDITIONALLY = 0.



















End Controller.



(** An extraction that finds no text, whatever the flags: with
    [fun _ => 0] for the length of the inner text. *)
Definition empty_extract (flags page : Z) : Z * Z := (flags, page).

(** C1, counterexample. When the extraction finds no text under any
    flags, none of the four attempts reaches the threshold, and the
    controller returns null and not the [articleContent] of an attempt. *)
Lemma retry_controller_returns_null :
  (forall k, (k <= 3)%nat ->
     textLength Z (attempt_of Z Z 1 2 4 empty_extract (fun _ => 0) 0 k) < 500)
  /\ snd (_grabArticle Z Z 1 2 4 500 empty_extract (fun _ => 0) 4 0) = Null Z
  /\ forall a, snd (_grabArticle Z Z 1 2 4 500 empty_extract (fun _ => 0) 4 0)
               <> Done Z a.
Proof.
  split; [|split].
  - intros k _. cbn. lia.
  - reflexivity.
  - intros a. vm_compute. discriminate.
Qed.

End Retry.

(* ================================================================== *)
(** * The content score of an element ([_grabArticle], scoring loop) *)
(* ================================================================== *)

Module Scoring.

Local Open Scope Z_scope.

(** [REGEXPS.commas]:
    [/,|،|﹐|︐|︑|⹁|⸴|⸲|，/g] *)
Definition commas (c : N) : bool :=
  bool_decide (c ∈ [0x002C; 0x060C; 0xFE50; 0xFE10; 0xFE11;
                    0x2E41; 0x2E34; 0x2E32; 0xFF0C]%N).

(** The score that the scoring loop computes from an element's
    [innerText]; [None] when the element is skipped:
<<
    if (innerText.length < 25) { return; }
    contentScore += 1;
    contentScore += innerText.split(this.REGEXPS.commas).length;
    contentScore += Math.min(Math.floor(innerText.length / 100), 3);
>> *)
Definition contentScore (innerText : jsstring) : option Z :=
  if Z.of_nat (length innerText) <? 25 then None
  else
    let contentScore := 0 in
    let contentScore := contentScore + 1 in
    let contentScore :=
      contentScore + Z.of_nat (length (split commas innerText)) in
    let contentScore :=
      contentScore + Z.min (Z.of_nat (length innerText) / 100) 3 in
    Some contentScore.

(** The score as the documentation describes it: one point, one point per
    comma, and a point per hundred characters up to three. *)
Definition documented_score (innerText : jsstring) : Z :=
  1 + Z.of_nat (count_matches commas innerText)
    + Z.min (Z.of_nat (length innerText) / 100) 3.

(** What the code computes: [split] returns one piece more than there are
    commas, so every scored element gets one point more than documented. *)
Lemma contentScore_value innerText :
  25 <= Z.of_nat (length innerText) ->
  contentScore innerText = Some (documented_score innerText + 1).
Proof.
  intros Hlen. unfold contentScore, documented_score.
  destruct (Z.ltb_spec (Z.of_nat (length innerText)) 25); [lia|].
  rewrite split_length. f_equal. lia.
Qed.

(** Twenty-five letters and no comma. *)
Definition plain_text : jsstring := lit "abcdefghijklmnopqrstuvwxy".

(** C2. On a text of 25 characters without a comma the code scores 2,
    where one point plus one per comma plus the length bonus is 1. *)
Theorem contentScore_one_more_than_documented :
  length plain_text = 25%nat /\
  count_matches commas plain_text = 0%nat /\
  documented_score plain_text = 1 /\
  contentScore plain_text = Some 2.
Proof. by vm_compute. Qed.

End Scoring.

(* ================================================================== *)
(** * The flags of the retry controller, for any flag values *)
(* ================================================================== *)

Module Flags.

Local Open Scope Z_scope.

(** A number is a 32-bit integer when its bits from bit 31 on are all
    equal. *)
Definition int32 (z : Z) : Prop := - 2 ^ 31 <= z < 2 ^ 31.

Lemma int32_shiftr z :
  int32 z <-> Z.shiftr z 31 = 0 \/ Z.shiftr z 31 = -1.
Proof.
  unfold int32. rewrite Z.shiftr_div_pow2 by lia.
  assert (HM : 0 < 2 ^ 31) by lia.
  generalize dependent (2 ^ 31). intros M HM.
  pose proof (Z.div_mod z M ltac:(lia)) as Hz.
  pose proof (Z.mod_pos_bound z M HM) as Hr.
  split.
  - intros [Hlo Hhi]. destruct (Z.neg_nonneg_cases z) as [Hneg|Hpos].
    + right. symmetry. apply (Z.div_unique z M (-1) (z + M)); lia.
    + left. apply Z.div_small. lia.
  - intros [H|H]; rewrite H in Hz; lia.
Qed.

Lemma int32_ToInt32 z : int32 (Retry.ToInt32 z).
Proof.
  unfold int32, Retry.ToInt32.
  assert (H32 : 2 ^ 32 = 2 * 2 ^ 31) by (change 32 with (1 + 31); by rewrite Z.pow_add_r).
  rewrite H32. assert (HM : 0 < 2 ^ 31) by lia.
  generalize dependent (2 ^ 31). intros M _ HM.
  pose proof (Z.mod_pos_bound (z + M) (2 * M) ltac:(lia)). lia.
Qed.

Lemma int32_land a b : int32 a -> int32 b -> int32 (Z.land a b).
Proof.
  rewrite !int32_shiftr, Z.shiftr_land.
  intros [-> | ->] [-> | ->]; auto.
Qed.

Lemma int32_lnot a : int32 a -> int32 (Z.lnot a).
Proof. unfold int32, Z.lnot, Z.pred. lia. Qed.

Lemma ToInt32_int32 z : int32 z -> Retry.ToInt32 z = z.
Proof. apply Retry.ToInt32_id. Qed.

Section AnyFlags.

Context {Html Element : Type}.

(** X1. Whatever the numbers are, a flag that was removed is not active
    afterwards, and removing it does not change whether a flag that has
    no bit in common with it is active. *)
Theorem removed_flag_is_inactive (st : Retry.State Html Element)
    (flag other : Z) :
  Retry._flagIsActive Html Element (Retry._removeFlag Html Element st flag) flag
  = false
  /\ (Retry.bitand other flag = 0 ->
      Retry._flagIsActive Html Element
        (Retry._removeFlag Html Element st flag) other
      = Retry._flagIsActive Html Element st other).
Proof.
  unfold Retry._flagIsActive, Retry._removeFlag, Retry.bitand, Retry.bitnot.
  cbn [Retry._flags].
  pose proof (int32_ToInt32 (Retry._flags Html Element st)) as HF.
  pose proof (int32_ToInt32 flag) as Hf.
  pose proof (int32_ToInt32 other) as Ho.
  set (F := Retry.ToInt32 (Retry._flags Html Element st)) in *.
  set (f := Retry.ToInt32 flag) in *.
  set (o := Retry.ToInt32 other) in *.
  rewrite (ToInt32_int32 (Z.lnot f)) by by apply int32_lnot.
  rewrite (ToInt32_int32 (Z.land F (Z.lnot f)))
    by by apply int32_land, int32_lnot.
  split.
  - replace (Z.land (Z.land F (Z.lnot f)) f) with 0; [done|].
    symmetry. apply Z.bits_inj'. intros n Hn.
    rewrite !Z.land_spec, Z.lnot_spec, Z.bits_0 by done.
    by destruct (Z.testbit F n), (Z.testbit f n).
  - intros Hdisjoint. f_equal.
    apply Z.bits_inj'. intros n Hn.
    rewrite !Z.land_spec, Z.lnot_spec by done.
    pose proof (Retry.bit_of_disjoint o f n Hdisjoint).
    destruct (Z.testbit F n), (Z.testbit f n), (Z.testbit o n); done.
Qed.

End AnyFlags.

(** The flags 1, 2 and 4 in the word 7: without 2, 4 is still active. *)
Lemma removed_flag_is_inactive_witness :
  Retry._flagIsActive unit unit
    (Retry._removeFlag unit unit
       {| Retry._flags := 7; Retry._attempts := []; Retry.page := tt |} 2) 4
  = true.
Proof.
  rewrite (proj2 (removed_flag_is_inactive
                    {| Retry._flags := 7; Retry._attempts := [];
                       Retry.page := tt |} 2 4) eq_refl).
  reflexivity.
Defined.

End Flags.

(* ================================================================== *)
(** * Class and id weighting ([_getClassWeight], [_initializeNode]) *)
(* ================================================================== *)

Module ClassWeight.

(** ** Patterns of words

    The patterns [REGEXPS.positive], [negative], [unlikelyCandidates] and
    [okMaybeItsACandidate] are alternatives of literal words, matched
    without regard to case (flag [i]); some alternatives of [negative]
    are tied to the start or the end of the text. *)

(** With the flag [i] and without the flag [u], a code unit matches an
    ASCII character of the pattern when both are the same character or
    the same ASCII letter in either case. *)
Definition lower (c : N) : N :=
  if (0x41 <=? c)%N && (c <=? 0x5A)%N then (c + 32)%N else c.

(** The word matches at the start of [s]. *)
Fixpoint matches_at (w s : jsstring) : bool :=
  match w, s with
  | [], _ => true
  | p :: w', c :: s' => (lower c =? lower p)%N && matches_at w' s'
  | _ :: _, [] => false
  end.

(** The word matches the whole of [s]. *)
Fixpoint matches_whole (w s : jsstring) : bool :=
  match w, s with
  | [], [] => true
  | p :: w', c :: s' => (lower c =? lower p)%N && matches_whole w' s'
  | _, _ => false
  end.

(** The word matches somewhere in [s]. *)
Fixpoint search (w s : jsstring) : bool :=
  matches_at w s || match s with [] => false | _ :: s' => search w s' end.

(** The word matches at the end of [s]. *)
Fixpoint search_end (w s : jsstring) : bool :=
  matches_whole w s
  || match s with [] => false | _ :: s' => search_end w s' end.

Inductive Alternative :=
| Anywhere (w : string)          (* w *)
| AtStart (w : string)           (* ^w *)
| AtEnd (w : string)             (* w$ *)
| Whole (w : string).            (* ^w$ *)

Definition matches (a : Alternative) (s : jsstring) : bool :=
  match a with
  | Anywhere w => search (lit w) s
  | AtStart w => matches_at (lit w) s
  | AtEnd w => search_end (lit w) s
  | Whole w => matches_whole (lit w) s
  end.

(** [pattern.test(s)] *)
Definition test (pattern : list Alternative) (s : jsstring) : bool :=
  existsb (fun a => matches a s) pattern.

(** [REGEXPS.positive]:
    [/article|body|content|entry|hentry|h-entry|main|page|pagination|post|text|blog|story/i] *)
Definition positive : list Alternative :=
  Anywhere <$> ["article"; "body"; "content"; "entry"; "hentry"; "h-entry";
                "main"; "page"; "pagination"; "post"; "text"; "blog";
                "story"]%string.

(** [REGEXPS.negative]:
    [/-ad-|hidden|^hid$| hid$| hid |^hid |banner|combx|comment|com-|contact|footer|gdpr|masthead|media|meta|outbrain|promo|related|scroll|share|shoutbox|sidebar|skyscraper|sponsor|shopping|tags|widget/i] *)
Definition negative : list Alternative :=
  [Anywhere "-ad-"; Anywhere "hidden"; Whole "hid"; AtEnd " hid";
   Anywhere " hid "; AtStart "hid "]%string
  ++ (Anywhere <$> ["banner"; "combx"; "comment"; "com-"; "contact";
                    "footer"; "gdpr"; "masthead"; "media"; "meta";
                    "outbrain"; "promo"; "related"; "scroll"; "share";
                    "shoutbox"; "sidebar"; "skyscraper"; "sponsor";
                    "shopping"; "tags"; "widget"]%string).

Local Open Scope Z_scope.

Section Weights.

(** [this._flagIsActive(this.FLAG_WEIGHT_CLASSES)] *)
Variable weightClasses : bool.

(** [_getClassWeight(e)]; the class name and the id of an HTML element
    are strings. *)
Definition _getClassWeight (e : Node) : Z :=
  if negb weightClasses then 0
  else
    let weight := 0 in
    (* Look for a special classname *)
    let weight :=
      match Siblings.className e with
      | _ :: _ =>
          let weight :=
            if test negative (Siblings.className e) then weight - 25
            else weight in
          if test positive (Siblings.className e) then weight + 25
          else weight
      | [] => weight
      end in
    (* Look for a special ID *)
    let weight :=
      match PostProcess.id e with
      | _ :: _ =>
          let weight :=
            if test negative (PostProcess.id e) then weight - 25
            else weight in
          if test positive (PostProcess.id e) then weight + 25 else weight
      | [] => weight
      end in
    weight.

(** The [switch (node.tagName)] of [_initializeNode]. *)
Definition tag_score (tagName : string) : Z :=
  if bool_decide (tagName = "DIV"%string) then 5
  else if bool_decide (tagName ∈ ["PRE"; "TD"; "BLOCKQUOTE"]%string) then 3
  else if bool_decide (tagName ∈ ["ADDRESS"; "OL"; "UL"; "DL"; "DD"; "DT";
                                  "LI"; "FORM"]%string) then -3
  else if bool_decide (tagName ∈ ["H1"; "H2"; "H3"; "H4"; "H5"; "H6";
                                  "TH"]%string) then -5
  else 0.

(** [_initializeNode(node)]: the score of the annotation it attaches. *)
Definition initial_score (node : Node) : Z :=
  let contentScore := 0 in
  let contentScore :=
    match tagName node with
    | Some t => contentScore + tag_score t
    | None => contentScore
    end in
  contentScore + _getClassWeight node.

Definition _initializeNode (node : Node) : Node :=
  Retag.set_readability node
    (Some {| contentScore := inject_Z (initial_score node) |}).

(** ** Properties *)

Lemma tag_score_range t : -5 <= tag_score t <= 5.
Proof. unfold tag_score. repeat case_bool_decide; lia. Qed.

Lemma getClassWeight_values e :
  _getClassWeight e ∈ [-50; -25; 0; 25; 50].
Proof.
  unfold _getClassWeight. destruct weightClasses; cbn [negb]; [|set_solver].
  cbv zeta.
  destruct (Siblings.className e), (PostProcess.id e);
    repeat match goal with |- context [test ?p ?s] => destruct (test p s) end;
    cbn; set_solver.
Qed.

End Weights.

(** X2. The weight of the class and id of an element is one of -50, -25,
    0, 25 and 50, and 0 when class weighting is switched off; the score
    an element starts with is that of its tag plus this weight, and so
    lies between -55 and 55. *)
Theorem initial_score_bounds (weightClasses : bool) (t : string)
    (a : list (string * jsstring)) (r : option Readability) (kids : list Node) :
  let node := Elem t a r kids in
  _getClassWeight weightClasses node ∈ [-50; -25; 0; 25; 50]
  /\ _getClassWeight false node = 0
  /\ readability (_initializeNode weightClasses node)
     = Some {| contentScore :=
                 inject_Z (tag_score t + _getClassWeight weightClasses node) |}
  /\ -55 <= initial_score weightClasses node <= 55
  /\ childNodes (_initializeNode weightClasses node) = kids
  /\ attributes (_initializeNode weightClasses node) = a.
Proof.
  intros node.
  assert (Hrange : -55 <= initial_score weightClasses node <= 55).
  { unfold initial_score. cbn [tagName node].
    pose proof (tag_score_range t).
    pose proof (getClassWeight_values weightClasses node) as Hw.
    rewrite !elem_of_cons, elem_of_nil in Hw. lia. }
  split; [apply getClassWeight_values|].
  split; [done|]. split; [done|]. split; [exact Hrange|]. by split.
Qed.

End ClassWeight.

(* ================================================================== *)
(** * Unlikely candidates (the traversal of [_grabArticle]) *)
(* ================================================================== *)

Module Unlikely.

Import ClassWeight.

(** [REGEXPS.unlikelyCandidates] *)
Definition unlikelyCandidates : list Alternative :=
  Anywhere <$> ["-ad-"; "ai2html"; "banner"; "breadcrumbs"; "combx";
                "comment"; "community"; "cover-wrap"; "disqus"; "extra";
                "footer"; "gdpr"; "header"; "legends"; "menu"; "related";
                "remark"; "replies"; "rss"; "shoutbox"; "sidebar";
                "skyscraper"; "social"; "sponsor"; "supplemental";
                "ad-break"; "agegate"; "pagination"; "pager"; "popup";
                "yom-remote"]%string.

(** [REGEXPS.okMaybeItsACandidate] *)
Definition okMaybeItsACandidate : list Alternative :=
  Anywhere <$> ["and"; "article"; "body"; "column"; "content"; "main";
                "mathjax"; "shadow"]%string.

(** [var matchString = node.className + " " + node.id;] *)
Definition matchString (node : Node) : jsstring :=
  Siblings.className node ++ lit " " ++ PostProcess.id node.

(** The test under [if (stripUnlikelyCandidates)]: the node is removed.
    [inTable] and [inCode] are [this._hasAncestorTag(node, "table")] and
    [this._hasAncestorTag(node, "code")]. *)
Definition is_stripped (stripUnlikelyCandidates : bool) (node : Node)
  (inTable inCode : bool) : bool :=
  if stripUnlikelyCandidates then
    test unlikelyCandidates (matchString node)
    && negb (test okMaybeItsACandidate (matchString node))
    && negb inTable
    && negb inCode
    && negb (tagName_is node "BODY")
    && negb (tagName_is node "A")
  else false.

(** ** Properties *)

(** A word without a space. *)
Definition spaceless (w : jsstring) : bool :=
  match w with
  | [] => false
  | _ :: _ => forallb (fun p => negb (lower p =? 0x20)%N) w
  end.

Lemma matches_at_before_space w a b :
  spaceless w = true ->
  matches_at w (a ++ 0x20%N :: b) = matches_at w a.
Proof.
  destruct w as [|p0 w0]; [done|]. cbn [spaceless].
  generalize (p0 :: w0). clear p0 w0. intros w. revert a.
  induction w as [|p w IH]; intros a Hw; [by destruct a|].
  cbn [forallb] in Hw. apply andb_true_iff in Hw as [Hp Hw].
  destruct a as [|c a]; cbn [app matches_at].
  - apply negb_true_iff in Hp. rewrite N.eqb_sym in Hp.
    change (lower 32) with 0x20%N. by rewrite Hp.
  - by rewrite IH.
Qed.

Lemma search_across_space w a b :
  spaceless w = true ->
  search w (a ++ 0x20%N :: b) = search w a || search w b.
Proof.
  intros Hw. induction a as [|c a IH].
  - cbn [app]. change (search w (0x20%N :: b))
      with (matches_at w (0x20%N :: b) || search w b).
    pose proof (matches_at_before_space w [] b Hw) as H0.
    cbn [app] in H0. rewrite H0.
    cbn [search]. by rewrite orb_false_r.
  - cbn [app]. change (search w (c :: a ++ 0x20%N :: b))
      with (matches_at w (c :: a ++ 0x20%N :: b) || search w (a ++ 0x20%N :: b)).
    pose proof (matches_at_before_space w (c :: a) b Hw) as H0.
    cbn [app] in H0. rewrite H0, IH.
    change (search w (c :: a)) with (matches_at w (c :: a) || search w a).
    by rewrite orb_assoc.
Qed.

Lemma test_across_space (words : list string) a b :
  forallb (fun w => spaceless (lit w)) words = true ->
  test (Anywhere <$> words) (a ++ 0x20%N :: b)
  = test (Anywhere <$> words) a || test (Anywhere <$> words) b.
Proof.
  unfold test. induction words as [|w words IH]; [done|].
  cbn [forallb]. intros [Hw Hws]%andb_true_iff.
  cbn [fmap list_fmap existsb matches]. rewrite (IH Hws).
  rewrite (search_across_space _ a b Hw).
  repeat match goal with
         | |- context [existsb ?f ?l] => generalize (existsb f l); intro
         end.
  by destruct (search (lit w) a), (search (lit w) b), b0, b1.
Qed.

(** X3. No word of the two patterns is found across the boundary of the
    class name and the id: the match string matches a pattern exactly
    when the class name or the id does.  So an element whose class name
    or id holds one of the words of [okMaybeItsACandidate] is never
    removed as an unlikely candidate, nor is a [BODY] or an [A]. *)
Theorem class_and_id_are_judged_apart (strip : bool) (node : Node)
    (inTable inCode : bool) :
  test unlikelyCandidates (matchString node)
  = test unlikelyCandidates (Siblings.className node)
    || test unlikelyCandidates (PostProcess.id node)
  /\ test okMaybeItsACandidate (matchString node)
     = test okMaybeItsACandidate (Siblings.className node)
       || test okMaybeItsACandidate (PostProcess.id node)
  /\ (test okMaybeItsACandidate (Siblings.className node)
      || test okMaybeItsACandidate (PostProcess.id node)
      || tagName_is node "BODY" || tagName_is node "A" = true ->
      is_stripped strip node inTable inCode = false).
Proof.
  assert (Hok : test okMaybeItsACandidate (matchString node)
     = test okMaybeItsACandidate (Siblings.className node)
       || test okMaybeItsACandidate (PostProcess.id node))
    by (apply test_across_space; by vm_compute).
  split; [apply test_across_space; by vm_compute|]. split; [done|].
  unfold is_stripped. rewrite Hok. destruct strip; [|done].
  destruct (test okMaybeItsACandidate (Siblings.className node)
            || test okMaybeItsACandidate (PostProcess.id node));
    [by rewrite andb_false_r|].
  cbn [orb]. intros [->| ->]%orb_true_iff; cbn [negb];
    by rewrite ?andb_false_r.
Qed.

(** [<div class="sidebar" id="main-content">] *)
Lemma class_and_id_are_judged_apart_witness :
  is_stripped true
    (Elem "DIV" [("class"%string, lit "sidebar");
                 ("id"%string, lit "Main-Content")] None [])
    false false = false.
Proof.
  apply (proj2 (proj2 (class_and_id_are_judged_apart true _ false false))).
  by vm_compute.
Defined.

End Unlikely.

(* ================================================================== *)
(** * Ancestors and score propagation ([_getNodeAncestors], scoring) *)
(* ================================================================== *)

Module Propagation.

Section Ancestors.

(** DOM nodes, as the walk sees them. *)
Context {A : Type}.

(** [_getNodeAncestors(node, maxDepth)].  [chain] is the chain of
    [parentNode] links from [node]: its parent, the parent of its parent,
    and so on to the node without parent.  [walk] is the loop
    [while (node.parentNode)], with [i] and [ancestors] as they are when
    the test is evaluated. *)
Fixpoint walk (maxDepth : Z) (chain : list A) (i : Z) (ancestors : list A)
  : list A :=
  match chain with
  | [] => ancestors
  | parentNode :: chain' =>
      let ancestors := ancestors ++ [parentNode] in
      (* if (maxDepth && ++i === maxDepth) break; *)
      if negb (maxDepth =? 0)%Z then
        let i := (i + 1)%Z in
        if (i =? maxDepth)%Z then ancestors
        else walk maxDepth chain' i ancestors
      else walk maxDepth chain' i ancestors
  end.

Definition _getNodeAncestors (chain : list A) (maxDepth : option Z) : list A :=
  let maxDepth := default 0%Z maxDepth in      (* maxDepth = maxDepth || 0 *)
  walk maxDepth chain 0 [].

Lemma walk_all chain i ancestors :
  walk 0 chain i ancestors = ancestors ++ chain.
Proof.
  revert ancestors. induction chain as [|p chain IH]; intros ancestors.
  - by rewrite app_nil_r.
  - cbn. rewrite IH. by rewrite <- app_assoc.
Qed.

Lemma walk_unbounded maxDepth chain i ancestors :
  (0 <= i /\ maxDepth <= i)%Z -> maxDepth <> 0%Z ->
  walk maxDepth chain i ancestors = ancestors ++ chain.
Proof.
  intros Hlt Hne. revert i ancestors Hlt.
  induction chain as [|p chain IH]; intros i ancestors Hlt.
  - by rewrite app_nil_r.
  - cbn [walk]. destruct (Z.eqb_spec maxDepth 0) as [|_]; [done|].
    cbn [negb]. destruct (Z.eqb_spec (i + 1) maxDepth) as [|_]; [lia|].
    rewrite IH by lia. by rewrite <- app_assoc.
Qed.

Lemma walk_bounded maxDepth chain i ancestors :
  (0 <= i < maxDepth)%Z ->
  walk maxDepth chain i ancestors
  = ancestors ++ take (Z.to_nat (maxDepth - i)) chain.
Proof.
  revert i ancestors.
  induction chain as [|p chain IH]; intros i ancestors Hi.
  - by rewrite take_nil, app_nil_r.
  - cbn [walk]. destruct (Z.eqb_spec maxDepth 0) as [|_]; [lia|].
    cbn [negb]. replace (Z.to_nat (maxDepth - i))
      with (S (Z.to_nat (maxDepth - (i + 1)))) by lia.
    cbn [take]. destruct (Z.eqb_spec (i + 1) maxDepth) as [->|Hne].
    + by rewrite Z.sub_diag.
    + rewrite IH by lia. by rewrite <- app_assoc.
Qed.

(** X4. The ancestors are given nearest first.  With a positive
    [maxDepth] they are the first [maxDepth] of the chain, or all of it
    when it is shorter; without [maxDepth], or with 0 or a negative one,
    they are the whole chain. *)
Theorem getNodeAncestors_is_a_prefix (chain : list A) (maxDepth : option Z) :
  _getNodeAncestors chain maxDepth
  = match maxDepth with
    | Some d => if (0 <? d)%Z then take (Z.to_nat d) chain else chain
    | None => chain
    end
  /\ (length (_getNodeAncestors chain maxDepth) <= length chain)%nat.
Proof.
  assert (H : _getNodeAncestors chain maxDepth
              = match maxDepth with
                | Some d => if (0 <? d)%Z then take (Z.to_nat d) chain else chain
                | None => chain
                end).
  { unfold _getNodeAncestors. destruct maxDepth as [d|]; cbn [default from_option id]; cbv zeta.
    - destruct (Z.ltb_spec 0 d) as [Hd|Hd].
      + rewrite walk_bounded by lia. by rewrite Z.sub_0_r.
      + destruct (Z.eq_dec d 0%Z) as [->|Hne]; [apply walk_all|].
        apply walk_unbounded; [lia|done].
    - apply walk_all. }
  split; [exact H|]. rewrite H.
  destruct maxDepth as [d|]; [|done].
  destruct (0 <? d)%Z; [|done]. rewrite length_take. lia.
Qed.

End Ancestors.

(** ** Propagation of a score to the ancestors *)

Local Open Scope Q_scope.

Section Scoring.

(** [this._flagIsActive(this.FLAG_WEIGHT_CLASSES)] *)
Variable weightClasses : bool.







(** ** Properties *)






End Scoring.




End Propagation.

(* ================================================================== *)
(** * The top candidates ([_grabArticle]) *)
(* ================================================================== *)

Module Ranking.

Local Open Scope Q_scope.

Section TopCandidates.

(** The candidates, with [candidate.readability.contentScore]. *)
Context {C : Type}.
Variable contentScore : C -> Q.

(** [this._nbTopCandidates] *)
Variable _nbTopCandidates : nat.

(** [topCandidates.splice(t, 0, candidate)] *)
Definition splice (t : nat) (candidate : C) (topCandidates : list C) : list C :=
  take t topCandidates ++ candidate :: drop t topCandidates.

(** [topCandidates.pop()] *)
Definition pop (topCandidates : list C) : list C :=
  take (length topCandidates - 1) topCandidates.

(** The loop [for (var t = 0; t < this._nbTopCandidates; t++)] from the
    test on; [steps] is the number of values of [t] that are left. *)
Fixpoint rank_from (steps t : nat) (candidate : C) (candidateScore : Q)
  (topCandidates : list C) : list C :=
  match steps with
  | O => topCandidates
  | S steps' =>
      let better :=
        match topCandidates !! t with
        | None => true                                  (* !aTopCandidate *)
        | Some aTopCandidate =>
            Siblings.ltb (contentScore aTopCandidate) candidateScore
        end in
      if better then
        let topCandidates := splice t candidate topCandidates in
        if (_nbTopCandidates <? length topCandidates)%nat
        then pop topCandidates
        else topCandidates                                       (* break *)
      else rank_from steps' (S t) candidate candidateScore topCandidates
  end.

Definition rank : C -> Q -> list C -> list C :=
  rank_from _nbTopCandidates 0.

(** ** Properties *)

(** The scores do not increase along the list. *)
Definition ranked (l : list C) : Prop :=
  forall i j a b, (i < j)%nat -> l !! i = Some a -> l !! j = Some b ->
                  contentScore b <= contentScore a.

(** The entries that the candidate does not beat, at the head of the
    list. *)
Fixpoint ahead (candidateScore : Q) (l : list C) : nat :=
  match l with
  | a :: l' =>
      if Siblings.ltb (contentScore a) candidateScore then 0%nat
      else S (ahead candidateScore l')
  | [] => 0%nat
  end.

Lemma ahead_le candidateScore l : (ahead candidateScore l <= length l)%nat.
Proof.
  induction l as [|a l IH]; [done|]. cbn.
  destruct (Siblings.ltb _ _); cbn; lia.
Qed.

Lemma ahead_not_beaten candidateScore l i a :
  (i < ahead candidateScore l)%nat -> l !! i = Some a ->
  candidateScore <= contentScore a.
Proof.
  revert i. induction l as [|x l IH]; intros i Hi Ha; [done|].
  cbn in Hi. destruct (Siblings.ltb (contentScore x) candidateScore) eqn:E;
    [lia|].
  destruct i as [|i].
  - injection Ha as <-. unfold Siblings.ltb in E.
    apply negb_false_iff in E. by apply Qle_bool_iff.
  - apply (IH i); [lia|done].
Qed.

Lemma ahead_beaten candidateScore l :
  (ahead candidateScore l < length l)%nat ->
  exists a, l !! ahead candidateScore l = Some a
            /\ contentScore a < candidateScore.
Proof.
  induction l as [|x l IH]; [cbn; lia|]. cbn.
  destruct (Siblings.ltb (contentScore x) candidateScore) eqn:E.
  - intros _. exists x. split; [done|]. by apply Siblings.ltb_lt.
  - cbn. intros Hlt. apply IH. lia.
Qed.

Lemma rank_from_spec steps t candidate candidateScore l :
  (t <= ahead candidateScore l)%nat ->
  rank_from steps t candidate candidateScore l
  = if (ahead candidateScore l <? t + steps)%nat then
      let l' := splice (ahead candidateScore l) candidate l in
      if (_nbTopCandidates <? length l')%nat then pop l' else l'
    else l.
Proof.
  revert t. induction steps as [|steps IH]; intros t Ht.
  - cbn [rank_from]. destruct (Nat.ltb_spec (ahead candidateScore l) (t + 0));
      [lia|done].
  - cbn [rank_from].
    destruct (Nat.eq_dec t (ahead candidateScore l)) as [->|Hne].
    + destruct (Nat.ltb_spec (ahead candidateScore l)
                  (ahead candidateScore l + S steps)); [|lia].
      assert (Hb : match l !! ahead candidateScore l with
                   | None => true
                   | Some a => Siblings.ltb (contentScore a) candidateScore
                   end = true).
      { destruct (l !! ahead candidateScore l) as [a|] eqn:E; [|done].
        destruct (ahead_beaten candidateScore l) as (a' & Ha' & Hlt).
        - by eapply lookup_lt_Some.
        - rewrite E in Ha'. injection Ha' as <-. by apply Siblings.ltb_lt. }
      by rewrite Hb.
    + assert (Hlt : (t < ahead candidateScore l)%nat) by lia.
      pose proof (ahead_le candidateScore l).
      destruct (lookup_lt_is_Some_2 l t ltac:(lia)) as [a Ha].
      rewrite Ha.
      pose proof (ahead_not_beaten candidateScore l t a Hlt Ha) as Hle.
      unfold Siblings.ltb. apply Qle_bool_iff in Hle. rewrite Hle.
      cbn [negb]. rewrite IH by lia.
      by replace (S t + steps)%nat with (t + S steps)%nat by lia.
Qed.

Lemma rank_spec candidate candidateScore l :
  rank candidate candidateScore l
  = if (ahead candidateScore l <? _nbTopCandidates)%nat then
      let l' := splice (ahead candidateScore l) candidate l in
      if (_nbTopCandidates <? length l')%nat then pop l' else l'
    else l.
Proof. unfold rank. rewrite rank_from_spec by lia. done. Qed.

Lemma length_splice t candidate l :
  length (splice t candidate l) = S (length l).
Proof.
  unfold splice. rewrite length_app, length_take. cbn [length].
  rewrite length_drop. lia.
Qed.

Lemma length_pop l : length (pop l) = (length l - 1)%nat.
Proof. unfold pop. rewrite length_take. lia. Qed.

Lemma ranked_splice candidate candidateScore l :
  contentScore candidate == candidateScore ->
  ranked l -> ranked (splice (ahead candidateScore l) candidate l).
Proof.
  intros Hc Hl. set (k := ahead candidateScore l).
  pose proof (ahead_le candidateScore l) as Hk. fold k in Hk.
  assert (Hbefore : forall i a, (i < k)%nat -> l !! i = Some a ->
                                candidateScore <= contentScore a)
    by (intros i a; apply ahead_not_beaten).
  assert (Hafter : forall j b, (k <= j)%nat -> l !! j = Some b ->
                               contentScore b <= candidateScore).
  { intros j b Hj Hb.
    destruct (ahead_beaten candidateScore l) as (a & Ha & Hlt).
    { fold k. apply lookup_lt_Some in Hb. lia. }
    fold k in Ha. apply Qle_trans with (contentScore a);
      [|by apply Qlt_le_weak].
    destruct (Nat.eq_dec j k) as [->|Hne].
    - rewrite Ha in Hb. injection Hb as <-. apply Qle_refl.
    - apply (Hl k j a b); [lia|done|done]. }
  assert (Hlook : forall i,
    splice k candidate l !! i
    = if (i <? k)%nat then l !! i
      else if (i =? k)%nat then Some candidate else l !! (i - 1)%nat).
  { intros i. unfold splice.
    destruct (Nat.ltb_spec i k).
    - rewrite lookup_app_l by (rewrite length_take; lia).
      by rewrite lookup_take_lt.
    - rewrite lookup_app_r by (rewrite length_take; lia).
      rewrite length_take, Nat.min_l by lia.
      destruct (Nat.eqb_spec i k) as [->|Hne].
      + by rewrite Nat.sub_diag.
      + replace (i - k)%nat with (S (i - k - 1)) by lia.
        change ((candidate :: drop k l) !! S (i - k - 1)%nat)
          with (drop k l !! (i - k - 1)%nat).
        rewrite lookup_drop. f_equal. lia. }
  intros i j a b Hij. rewrite !Hlook.
  destruct (Nat.ltb_spec i k), (Nat.ltb_spec j k); try lia.
  - intros Ha Hb. by apply (Hl i j).
  - destruct (Nat.eqb_spec j k).
    + intros Ha [= <-]. rewrite Hc. by apply (Hbefore i).
    + intros Ha Hb. apply Qle_trans with candidateScore.
      * apply (Hafter (j - 1)%nat); [lia|done].
      * by apply (Hbefore i).
  - destruct (Nat.eqb_spec i k), (Nat.eqb_spec j k); try lia.
    + intros [= <-] Hb. rewrite Hc. apply (Hafter (j - 1)%nat); [lia|done].
    + intros Ha Hb. apply (Hl (i - 1)%nat (j - 1)%nat); [lia|done|done].
Qed.

Lemma ranked_pop l : ranked l -> ranked (pop l).
Proof.
  intros Hl i j a b Hij Ha Hb. unfold pop in *.
  apply lookup_take_Some in Ha as [Ha _].
  apply lookup_take_Some in Hb as [Hb _]. by apply (Hl i j).
Qed.

End TopCandidates.

(** X6. Ranking a candidate puts it before the first of the top
    candidates that it beats, if that is among the first
    [_nbTopCandidates] places, and then drops the last entry if the list
    has grown beyond that number.  A list of at most [_nbTopCandidates]
    entries stays so, and if its scores do not increase along it and the
    candidate is ranked by its own score, they still do not afterwards. *)
Theorem ranking_keeps_the_best {C : Type} (contentScore : C -> Q)
    (_nbTopCandidates : nat) (candidate : C) (candidateScore : Q)
    (topCandidates : list C) :
  (length topCandidates <= _nbTopCandidates)%nat ->
  ranked contentScore topCandidates ->
  contentScore candidate == candidateScore ->
  let result := rank contentScore _nbTopCandidates candidate candidateScore
                  topCandidates in
  let place := ahead contentScore candidateScore topCandidates in
  (length result <= _nbTopCandidates)%nat
  /\ ranked contentScore result
  /\ (if (place <? _nbTopCandidates)%nat
      then result = take _nbTopCandidates
                      (take place topCandidates
                       ++ candidate :: drop place topCandidates)
      else result = topCandidates).
Proof.
  intros Hlen Hranked Hc result place. subst result.
  rewrite rank_spec. fold place. cbv zeta.
  pose proof (length_splice place candidate topCandidates) as Hls.
  destruct (Nat.ltb_spec place _nbTopCandidates) as [Hp|Hp];
    [|by split_and!].
  assert (Hr : ranked contentScore (splice place candidate topCandidates))
    by by apply ranked_splice.
  destruct (Nat.ltb_spec _nbTopCandidates
              (length (splice place candidate topCandidates))) as [Hl|Hl].
  - split_and!.
    + rewrite length_pop. lia.
    + by apply ranked_pop.
    + unfold pop. f_equal. lia.
  - split_and!; [done|done|].
    fold (splice place candidate topCandidates).
    by rewrite take_ge by lia.
Qed.

(** Three candidates of scores 9, 5 and 2, three places, and a candidate of
    score 7. *)
Lemma ranking_keeps_the_best_witness :
  rank (fun c : Q => c) 3 7 7 [9; 5; 2] = [9; 7; 5].
Proof.
  assert (Hr : ranked (fun c : Q => c) [9; 5; 2]).
  { intros [|[|[|i]]] [|[|[|j]]] a b Hij Ha Hb; try lia; try done;
      injection Ha as <-; injection Hb as <-; discriminate. }
  exact (proj2 (proj2 (ranking_keeps_the_best (fun c : Q => c) 3 7 7
                         [9; 5; 2] (le_n 3) Hr (Qeq_refl 7)))).
Defined.

End Ranking.

(* ================================================================== *)
(** * The only child of its parent as top candidate *)
(* ================================================================== *)

Module Climb.

(** The loop
<<
    while (parentOfTopCandidate.tagName != "BODY" &&
           parentOfTopCandidate.children.length == 1) {
      topCandidate = parentOfTopCandidate;
      parentOfTopCandidate = topCandidate.parentNode;
    }
>>
    [chain] is the chain of [parentNode] links from the top candidate;
    reading [tagName] of the parent of a node without parent throws. *)
Fixpoint climb (topCandidate : Node) (chain : list Node) : completion Node :=
  match chain with
  | [] => Thrown (lit "TypeError")
  | parentOfTopCandidate :: chain' =>
      if negb (tagName_is parentOfTopCandidate "BODY")
         && (length (children parentOfTopCandidate) =? 1)%nat
      then climb parentOfTopCandidate chain'
      else Normal topCandidate
  end.

(** X7. Below a [BODY] the loop ends without throwing.  It stops at the
    top candidate or at one of its ancestors below the [BODY]: at the
    first one whose parent is the [BODY] or has another number of element
    children than one; a top candidate that is no [BODY] is never
    replaced by a [BODY]. *)
Theorem climb_stops_below_body (topCandidate : Node) (chain : list Node)
    (k : nat) (body : Node) :
  chain !! k = Some body -> tagName body = Some "BODY"%string ->
  exists (n : nat) (result parent : Node),
    climb topCandidate chain = Normal result
    /\ (n <= k)%nat
    /\ (topCandidate :: chain) !! n = Some result
    /\ chain !! n = Some parent
    /\ (tagName parent = Some "BODY"%string
        \/ length (children parent) <> 1%nat)
    /\ (forall m p, (m < n)%nat -> chain !! m = Some p ->
          tagName p <> Some "BODY"%string /\ length (children p) = 1%nat)
    /\ (tagName topCandidate <> Some "BODY"%string ->
        tagName result <> Some "BODY"%string).
Proof.
  revert topCandidate k.
  induction chain as [|p chain IH]; intros topCandidate k Hk Hbody; [done|].
  cbn [climb]. unfold tagName_is.
  destruct (decide (tagName p = Some "BODY"%string)) as [Hp|Hp].
  { rewrite bool_decide_eq_true_2 by done. cbn.
    exists 0%nat, topCandidate, p. split_and!; try done; [lia|by left|lia]. }
  rewrite bool_decide_eq_false_2 by done. cbn [negb andb].
  destruct (Nat.eqb_spec (length (children p)) 1) as [Hone|Hmore].
  - destruct k as [|k]; [cbn in Hk; congruence|]. cbn in Hk.
    destruct (IH p k Hk Hbody)
      as (n & result & parent & Hc & Hn & Hr & Hpar & Hstop & Hall & Hnb).
    exists (S n), result, parent. split_and!; try done; [lia| |by auto].
    intros [|m] q Hm Hq; [injection Hq as <-; by split|].
    apply (Hall m q); [lia|done].
  - exists 0%nat, topCandidate, p. split_and!; try done; [lia|by right|lia].
Qed.

(** [<body><main><div><p>text</p></div></main><footer></footer></body>],
    with the paragraph as top candidate. *)
Definition the_p : Node := Elem "P" [] None [Text (lit "text")].
Definition the_div : Node := Elem "DIV" [] None [the_p].
Definition the_main : Node := Elem "MAIN" [] None [the_div].
Definition the_body : Node :=
  Elem "BODY" [] None [the_main; Elem "FOOTER" [] None []].

Lemma climb_stops_below_body_witness :
  exists n result parent,
    climb the_p [the_div; the_main; the_body] = Normal result
    /\ (n <= 2)%nat
    /\ (the_p :: [the_div; the_main; the_body]) !! n = Some result
    /\ [the_div; the_main; the_body] !! n = Some parent
    /\ (tagName parent = Some "BODY"%string
        \/ length (children parent) <> 1%nat)
    /\ (forall m p, (m < n)%nat ->
          [the_div; the_main; the_body] !! m = Some p ->
          tagName p <> Some "BODY"%string /\ length (children p) = 1%nat)
    /\ (tagName the_p <> Some "BODY"%string ->
        tagName result <> Some "BODY"%string).
Proof.
  exact (climb_stops_below_body the_p [the_div; the_main; the_body] 2
           the_body eq_refl eq_refl).
Defined.

End Climb.

(* ================================================================== *)
(** * Phrasing content into paragraphs (the [DIV] case of the traversal) *)
(* ================================================================== *)

Module Paragraphs.

Section Grouping.

(** [this._isWhitespace], which the analysed sources use and do not
    define. *)
Variable _isWhitespace : Node -> bool.

(** [while (p.lastChild && this._isWhitespace(p.lastChild))
      p.lastChild.remove();] on the child nodes of [p], last first. *)
Fixpoint strip (reversed : list Node) : list Node :=
  match reversed with
  | lastChild :: others =>
      if _isWhitespace lastChild then strip others else reversed
  | [] => []
  end.

Definition remove_trailing_whitespace (p : Node) : Node :=
  match p with
  | Text _ => p
  | Elem t a r kids => Elem t a r (rev (strip (rev kids)))
  end.

(** The loop [while (childNode)] over the child nodes of the [DIV].
    [before] are the child nodes of the [DIV] that come before the
    paragraph [p], or before [childNode] when [p] is [null]; [p], when it
    is not [null], is the child node after them. *)
Fixpoint group (before : list Node) (p : option Node) (rest : list Node)
  : list Node :=
  match rest with
  | [] => before ++ option_list p
  | childNode :: nextSiblings =>
      if _isPhrasingContent childNode then
        match p with
        | Some p' =>
            group before (Some (Retag.appendChild p' childNode)) nextSiblings
        | None =>
            if negb (_isWhitespace childNode) then
              let p' := Retag.createElement "p" in
              (* node.replaceChild(p, childNode); *)
              group before (Some (Retag.appendChild p' childNode))
                    nextSiblings
            else group (before ++ [childNode]) None nextSiblings
        end
      else
        match p with
        | Some p' =>
            group (before ++ [remove_trailing_whitespace p'; childNode])
                  None nextSiblings
        | None => group (before ++ [childNode]) None nextSiblings
        end
  end.

(** The child nodes of the [DIV] after the loop. *)
Definition put_phrasing_content_into_paragraphs (childNodes : list Node)
  : list Node :=
  group [] None childNodes.

(** ** The result, group by group *)

(** A child node of the [DIV] that stayed where it was, or the child
    nodes that went into a new paragraph. *)
Definition Group : Type := Node + list Node.

Definition render (g : Group) : Node :=
  match g with
  | inl k => k
  | inr ks => Elem "P" [] None ks
  end.

Definition members (g : Group) : list Node :=
  match g with
  | inl k => [k]
  | inr ks => ks
  end.

(** What stays outside a paragraph is no phrasing content, or is white
    space; a paragraph holds phrasing content only and starts with a node
    that is not white space. *)
Definition well_grouped (g : Group) : Prop :=
  match g with
  | inl k => _isPhrasingContent k = true -> _isWhitespace k = true
  | inr ks =>
      Forall (fun k => _isPhrasingContent k = true) ks
      /\ exists k ks', ks = k :: ks' /\ _isWhitespace k = false
  end.

(** A paragraph that is not the last group does not end in white
    space. *)
Fixpoint closed (gs : list Group) : Prop :=
  match gs with
  | [] => True
  | [_] => True
  | g :: gs' =>
      match g with
      | inl _ => True
      | inr ks => exists k, last ks = Some k /\ _isWhitespace k = false
      end /\ closed gs'
  end.

Definition solid (k : Node) : bool := negb (_isWhitespace k).

(** ** Properties *)

Lemma group_before before p rest :
  group before p rest = before ++ group [] p rest.
Proof.
  revert before p. induction rest as [|c rest IH]; intros before p; [done|].
  cbn [group app]. destruct (_isPhrasingContent c).
  - destruct p as [p'|]; [apply IH|].
    destruct (negb (_isWhitespace c)); cbv zeta; [apply IH|].
    rewrite (IH (before ++ [c])), (IH [c]). by rewrite <- app_assoc.
  - destruct p as [p'|].
    + rewrite (IH (before ++ _)), (IH [_; _]). by rewrite <- app_assoc.
    + rewrite (IH (before ++ [c])), (IH [c]). by rewrite <- app_assoc.
Qed.

Lemma strip_spec reversed :
  exists removed,
    reversed = removed ++ strip reversed
    /\ Forall (fun k => _isWhitespace k = true) removed
    /\ match strip reversed with
       | k :: _ => _isWhitespace k = false
       | [] => True
       end.
Proof.
  induction reversed as [|k l (removed & Heq & Hws & Hlast)].
  - by exists [].
  - cbn [strip]. destruct (_isWhitespace k) eqn:Hk.
    + exists (k :: removed). split_and!; [by rewrite Heq at 1|by constructor|done].
    + exists []. by split_and!.
Qed.

(** Removing the trailing white space of a list that starts with a node
    that is not white space. *)
Lemma remove_trailing_spec k ks :
  _isWhitespace k = false ->
  exists ks' removed,
    rev (strip (rev (k :: ks))) = k :: ks'
    /\ k :: ks = (k :: ks') ++ removed
    /\ Forall (fun x => _isWhitespace x = true) removed
    /\ exists x, last (k :: ks') = Some x /\ _isWhitespace x = false.
Proof.
  intros Hk.
  destruct (strip_spec (rev (k :: ks))) as (removed & Heq & Hws & Hlast).
  assert (Hrev : k :: ks = rev (strip (rev (k :: ks))) ++ rev removed).
  { rewrite <- rev_app_distr, <- Heq. by rewrite rev_involutive. }
  destruct (rev (strip (rev (k :: ks)))) as [|k0 ks'] eqn:E.
  - cbn [app] in Hrev.
    assert (Hin : k ∈ removed).
    { apply list_elem_of_In, in_rev. rewrite <- Hrev. by left. }
    rewrite Forall_forall in Hws. rewrite (Hws k Hin) in Hk. done.
  - injection Hrev as <- Hks. exists ks', (rev removed).
    split_and!; [done|by rewrite Hks| |].
    + apply Forall_forall. intros x Hx%list_elem_of_In%in_rev.
      rewrite Forall_forall in Hws. by apply Hws, list_elem_of_In.
    + assert (Hs : strip (rev (k :: ks)) = rev (k :: ks'))
        by (by rewrite <- E, rev_involutive).
      rewrite Hs in Hlast.
      destruct (rev (k :: ks')) as [|x l] eqn:E'.
      { apply (f_equal (@rev Node)) in E'. rewrite rev_involutive in E'.
        done. }
      exists x. split; [|done].
      apply (f_equal (@rev Node)) in E'. rewrite rev_involutive in E'.
      rewrite E'. cbn [rev]. apply last_snoc.
Qed.

Lemma filter_solid_whitespace removed :
  Forall (fun x => _isWhitespace x = true) removed ->
  List.filter solid removed = [].
Proof.
  induction 1 as [|x l Hx _ IH]; [done|].
  cbn [List.filter]. unfold solid at 1. by rewrite Hx.
Qed.

(** The invariant of the loop, from a state in which the children [ks] are
    in the open paragraph, if there is one. *)
Definition open_paragraph (p : option Node) (ks : list Node) : Prop :=
  match p with
  | Some p' =>
      p' = Elem "P" [] None ks
      /\ Forall (fun k => _isPhrasingContent k = true) ks
      /\ exists k ks', ks = k :: ks' /\ _isWhitespace k = false
  | None => ks = []
  end.

Lemma members_cons (g : Group) gs :
  mjoin (members <$> (g :: gs)) = members g ++ mjoin (members <$> gs).
Proof. done. Qed.

Lemma group_spec p ks rest :
  open_paragraph p ks ->
  exists gs : list Group,
    group [] p rest = render <$> gs
    /\ sublist (mjoin (members <$> gs)) (ks ++ rest)
    /\ List.filter solid (mjoin (members <$> gs))
       = List.filter solid (ks ++ rest)
    /\ Forall well_grouped gs
    /\ closed gs
    /\ match p, gs with
       | Some _, [] => False
       | Some _, g :: _ => exists ks', g = inr ks'
       | None, _ => True
       end.
Proof.
  revert p ks. induction rest as [|c rest IH]; intros p ks Hp.
  { destruct p as [p'|]; cbn [group option_list app].
    - destruct Hp as (-> & Hph & Hhead).
      exists [inr ks]. cbn. rewrite !app_nil_r.
      split_and!; try done; [by constructor|by eexists].
    - exists []. cbn in Hp. subst ks. by split_and!. }
  cbn [group]. destruct (_isPhrasingContent c) eqn:Hc.
  - destruct p as [p'|].
    + destruct Hp as (-> & Hph & k & ks' & -> & Hk).
      destruct (IH (Some (Elem "P" [] None ((k :: ks') ++ [c])))
                  ((k :: ks') ++ [c]))
        as (gs & Hg & Hsub & Hfil & Hwg & Hcl & Hfirst).
      { split_and!; [done| |by exists k, (ks' ++ [c])].
        apply Forall_app. split; [done|]. by constructor. }
      exists gs. cbn [Retag.appendChild]. rewrite <- !app_assoc in *.
      by split_and!.
    + cbn in Hp. subst ks. destruct (_isWhitespace c) eqn:Hw; cbn [negb].
      * destruct (IH None []) as (gs & Hg & Hsub & Hfil & Hwg & Hcl & _);
          [done|].
        exists (inl c :: gs). rewrite group_before, Hg.
        split_and!; try done.
        -- rewrite members_cons. by apply sublist_skip.
        -- assert (Hs : solid c = false) by (unfold solid; by rewrite Hw).
           rewrite members_cons. cbn [members app List.filter] in *.
           by rewrite Hs.
        -- constructor; [|done]. by intros _.
        -- destruct gs; [done|]. by split.
      * cbv zeta.
        destruct (IH (Some (Elem "P" [] None [c])) [c])
          as (gs & Hg & Hsub & Hfil & Hwg & Hcl & Hfirst).
        { split_and!; [done|by constructor|by exists c, []]. }
        exists gs. by split_and!.
  - destruct (IH None []) as (gs & Hg & Hsub & Hfil & Hwg & Hcl & _);
      [done|].
    assert (Hout : well_grouped (inl c)) by (cbn; congruence).
    destruct p as [p'|].
    + destruct Hp as (-> & Hph & k & ks' & -> & Hk).
      destruct (remove_trailing_spec k ks' Hk)
        as (ks'' & removed & Hrt & Hsplit & Hws & x & Hlast & Hx).
      exists (inr (k :: ks'') :: inl c :: gs).
      rewrite group_before, Hg. cbn [remove_trailing_whitespace].
      rewrite Hrt. split_and!.
      * done.
      * rewrite !members_cons. cbn [members]. rewrite Hsplit.
        rewrite <- !app_assoc. apply sublist_app; [done|].
        apply sublist_inserts_l. by apply sublist_skip.
      * rewrite !members_cons. cbn [members]. rewrite Hsplit.
        rewrite <- !app_assoc, !List.filter_app.
        rewrite (filter_solid_whitespace removed Hws). cbn [app] in *.
        change (c :: rest) with ([c] ++ rest).
        by rewrite List.filter_app, Hfil.
      * constructor; [|by constructor]. split; [|by eexists _, _].
        rewrite Hsplit in Hph. by apply Forall_app in Hph as [? _].
      * split; [by exists x|]. destruct gs; [done|]. by split.
      * by eexists.
    + cbn in Hp. subst ks. exists (inl c :: gs).
      rewrite group_before, Hg. split_and!; try done.
      * rewrite members_cons. by apply sublist_skip.
      * rewrite members_cons. cbn [members app] in Hfil.
        change (c :: rest) with ([c] ++ rest).
        by rewrite !List.filter_app, Hfil.
      * by constructor.
      * destruct gs; [done|]. by split.
Qed.

End Grouping.

(** X8. Putting the phrasing content of a [DIV] into paragraphs leaves
    its child nodes in groups, in their order: a child node that is no
    phrasing content, or is white space, stays where it is; the others go
    into new [P] elements without attributes, each holding phrasing
    content only, starting with a node that is not white space and, unless
    it is the last group, not ending in white space.  Only white space is
    dropped. *)
Theorem phrasing_content_is_grouped (_isWhitespace : Node -> bool)
    (childNodes : list Node) :
  exists gs : list Group,
    put_phrasing_content_into_paragraphs _isWhitespace childNodes
    = render <$> gs
    /\ sublist (mjoin (members <$> gs)) childNodes
    /\ List.filter (solid _isWhitespace) (mjoin (members <$> gs))
       = List.filter (solid _isWhitespace) childNodes
    /\ Forall (well_grouped _isWhitespace) gs
    /\ closed _isWhitespace gs.
Proof.
  destruct (group_spec _isWhitespace None [] childNodes eq_refl)
    as (gs & Hg & Hsub & Hfil & Hwg & Hcl & _).
  by exists gs.
Qed.

(** A sample of [_isWhitespace]: a text node of white space only, or a
    [BR]. *)
Definition blank_or_br (node : Node) : bool :=
  match node with
  | Text s => forallb isWhiteSpace s
  | Elem t _ _ _ => bool_decide (t = "BR"%string)
  end.

(** [<div> one <b>two</b> <br><ul></ul>three </div>] *)
Example grouping_sample :
  put_phrasing_content_into_paragraphs blank_or_br
    [Text (lit " "); Text (lit "one"); Elem "B" [] None [Text (lit "two")];
     Text (lit " "); Elem "BR" [] None []; Elem "UL" [] None [];
     Text (lit "three"); Text (lit " ")]
  = [Text (lit " ");
     Elem "P" [] None [Text (lit "one"); Elem "B" [] None [Text (lit "two")]];
     Elem "UL" [] None [];
     Elem "P" [] None [Text (lit "three"); Text (lit " ")]].
Proof. reflexivity. Qed.

End Paragraphs.

(* ================================================================== *)
(** * Presentational attributes ([_cleanStyles]) *)
(* ================================================================== *)

Module Styles.

(** [tag.toLowerCase()] on the ASCII names of tags. *)
Definition lower_ascii (a : ascii) : ascii :=
  let n := nat_of_ascii a in
  if (65 <=? n)%nat && (n <=? 90)%nat then ascii_of_nat (n + 32) else a.

Fixpoint toLowerCase (s : string) : string :=
  match s with
  | EmptyString => EmptyString
  | String a s' => String (lower_ascii a) (toLowerCase s')
  end.

(** [PRESENTATIONAL_ATTRIBUTES] *)
Definition PRESENTATIONAL_ATTRIBUTES : list string :=
  ["align"; "background"; "bgcolor"; "border"; "cellpadding";
   "cellspacing"; "frame"; "hspace"; "rules"; "style"; "valign";
   "vspace"]%string.

(** [DEPRECATED_SIZE_ATTRIBUTE_ELEMS] *)
Definition DEPRECATED_SIZE_ATTRIBUTE_ELEMS : list string :=
  ["TABLE"; "TH"; "TD"; "HR"; "PRE"]%string.

(** [for (i...) e.removeAttribute(names[i]);] *)
Definition remove_attributes (names : list string)
  (a : list (string * jsstring)) : list (string * jsstring) :=
  fold_left (fun a name => PostProcess.remove_attr name a) names a.

(** What [_cleanStyles] does to the attributes of an element with tag
    [t]. *)
Definition unstyle (t : string) (a : list (string * jsstring))
  : list (string * jsstring) :=
  (* Remove `style` and deprecated presentational attributes *)
  let a := remove_attributes PRESENTATIONAL_ATTRIBUTES a in
  if bool_decide (t ∈ DEPRECATED_SIZE_ATTRIBUTE_ELEMS) then
    let a := PostProcess.remove_attr "width" a in
    let a := PostProcess.remove_attr "height" a in
    a
  else a.

(** [e.tagName.toLowerCase() === "svg"] *)
Definition is_svg (t : string) : bool := String.eqb (toLowerCase t) "svg".

(** [_cleanStyles(e)]; the walk goes from element child to element
    child. *)
Fixpoint _cleanStyles (e : Node) : Node :=
  match e with
  | Text _ => e
  | Elem t a r kids =>
      if is_svg t then e
      else Elem t (unstyle t a) r (map _cleanStyles kids)
  end.

(** ** The claim in its own terms *)

(** The names of the attributes that an element with tag [t] loses. *)
Definition removed_names (t : string) : list string :=
  PRESENTATIONAL_ATTRIBUTES
  ++ (if bool_decide (t ∈ DEPRECATED_SIZE_ATTRIBUTE_ELEMS)
      then ["width"; "height"]%string else []).

(** The element has none of the attributes that [_cleanStyles]
    removes. *)
Definition unstyled (n : Node) : bool :=
  match n with
  | Text _ => true
  | Elem t a _ _ =>
      forallb (fun name => bool_decide (lookup_attr name a = None))
              (removed_names t)
  end.

(** [P] holds of the node and of its descendants, outside of [svg]
    elements. *)
Fixpoint outside_svg (P : Node -> bool) (n : Node) : bool :=
  match n with
  | Text _ => true
  | Elem t _ _ kids => is_svg t || (P n && forallb (outside_svg P) kids)
  end.

(** ** Properties *)

Lemma filter_compose {A} (p q : A -> bool) l :
  List.filter p (List.filter q l) = List.filter (fun x => q x && p x) l.
Proof.
  induction l as [|x l IH]; [done|]. cbn [List.filter].
  destruct (q x); cbn [List.filter andb]; [|done].
  destruct (p x); by rewrite IH.
Qed.

Lemma remove_attributes_filter names a :
  remove_attributes names a
  = List.filter (fun kv => negb (existsb (String.eqb (fst kv)) names)) a.
Proof.
  unfold remove_attributes. revert a.
  induction names as [|n names IH]; intros a.
  - cbn. induction a as [|x a IHa]; [done|]. cbn. by rewrite <- IHa.
  - cbn [fold_left]. rewrite IH. unfold PostProcess.remove_attr.
    rewrite filter_compose. apply filter_ext. intros kv. cbn [existsb].
    by rewrite negb_orb.
Qed.

Lemma unstyle_filter t a :
  unstyle t a
  = List.filter
      (fun kv => negb (existsb (String.eqb (fst kv)) (removed_names t))) a.
Proof.
  unfold unstyle, removed_names. cbv zeta.
  destruct (bool_decide (t ∈ DEPRECATED_SIZE_ATTRIBUTE_ELEMS)).
  - change (PostProcess.remove_attr "height"
              (PostProcess.remove_attr "width"
                 (remove_attributes PRESENTATIONAL_ATTRIBUTES a)))
      with (remove_attributes
              (PRESENTATIONAL_ATTRIBUTES ++ ["width"; "height"]%string) a).
    apply remove_attributes_filter.
  - rewrite app_nil_r. apply remove_attributes_filter.
Qed.

Lemma lookup_filter_names names a name :
  lookup_attr name
    (List.filter (fun kv => negb (existsb (String.eqb (fst kv)) names)) a)
  = if existsb (String.eqb name) names then None else lookup_attr name a.
Proof.
  induction a as [|[k v] a IH].
  - cbn. by destruct (existsb _ _).
  - cbn [List.filter fst]. destruct (existsb (String.eqb k) names) eqn:Ek;
      cbn [negb lookup_attr].
    + rewrite IH. destruct (String.eqb_spec k name) as [->|Hne]; [|done].
      by rewrite Ek.
    + destruct (String.eqb_spec k name) as [->|Hne]; [by rewrite Ek|done].
Qed.

Lemma unstyle_idempotent t a : unstyle t (unstyle t a) = unstyle t a.
Proof.
  rewrite !unstyle_filter, filter_compose. apply filter_ext.
  intros kv. by destruct (negb _).
Qed.

Lemma unstyled_unstyle t a r kids : unstyled (Elem t (unstyle t a) r kids) = true.
Proof.
  cbn [unstyled]. apply forallb_forall. intros name Hin.
  apply bool_decide_eq_true. rewrite unstyle_filter, lookup_filter_names.
  assert (H : existsb (String.eqb name) (removed_names t) = true); [|by rewrite H].
  apply existsb_exists. exists name. split; [done|apply String.eqb_refl].
Qed.

(** X9. Cleaning the styles a second time changes nothing; it leaves the
    text of the element as it is; afterwards no element outside of an
    [svg] has a presentational attribute, nor a [width] or [height] if it
    is a [TABLE], [TH], [TD], [HR] or [PRE]; and the element keeps every
    other attribute it had. *)
Theorem cleanStyles_removes_presentation (e : Node) :
  _cleanStyles (_cleanStyles e) = _cleanStyles e
  /\ textContent (_cleanStyles e) = textContent e
  /\ tagName (_cleanStyles e) = tagName e
  /\ outside_svg unstyled (_cleanStyles e) = true
  /\ (forall name,
        name ∉ removed_names (default ""%string (tagName e)) ->
        getAttribute (_cleanStyles e) name = getAttribute e name).
Proof.
  split_and!.
  - induction e as [s|t a r kids IH] using node_induction; [done|].
    cbn [_cleanStyles]. destruct (is_svg t) eqn:Hsvg; cbn [_cleanStyles];
      rewrite Hsvg; [done|].
    rewrite unstyle_idempotent. f_equal. rewrite map_map.
    apply map_ext_Forall, IH.
  - induction e as [s|t a r kids IH] using node_induction; [done|].
    cbn [_cleanStyles]. destruct (is_svg t); [done|]. cbn [textContent].
    induction IH as [|k kids Hk _ IHkids]; [done|].
    cbn [map flat_map]. by rewrite Hk, IHkids.
  - destruct e as [s|t a r kids]; [done|]. cbn [_cleanStyles].
    by destruct (is_svg t).
  - induction e as [s|t a r kids IH] using node_induction; [done|].
    cbn [_cleanStyles]. destruct (is_svg t) eqn:Hsvg; cbn [outside_svg];
      rewrite Hsvg; [done|].
    cbn [orb]. rewrite unstyled_unstyle. cbn [andb].
    induction IH as [|k kids Hk _ IHkids]; [done|].
    cbn [map forallb]. by rewrite Hk, IHkids.
  - destruct e as [s|t a r kids]; [done|]. intros name Hname.
    cbn [_cleanStyles tagName default from_option id] in *.
    destruct (is_svg t); [done|]. unfold getAttribute. cbn [attributes].
    rewrite unstyle_filter, lookup_filter_names.
    destruct (existsb (String.eqb name) (removed_names t)) eqn:E; [|done].
    apply existsb_exists in E as (x & Hin & ->%String.eqb_eq).
    by apply list_elem_of_In in Hin.
Qed.

(** [<table width="100%" class="data"><tr><td style="color:red"
    colspan="2">a</td></tr><svg style="x"></svg></table>] *)
Example cleanStyles_sample :
  _cleanStyles
    (Elem "TABLE" [("width"%string, lit "100%"); ("class"%string, lit "data")]
       None
       [Elem "TR" [] None
          [Elem "TD" [("style"%string, lit "color:red");
                      ("colspan"%string, lit "2")] None [Text (lit "a")]];
        Elem "svg" [("style"%string, lit "x")] None []])
  = Elem "TABLE" [("class"%string, lit "data")] None
      [Elem "TR" [] None
         [Elem "TD" [("colspan"%string, lit "2")] None [Text (lit "a")]];
       Elem "svg" [("style"%string, lit "x")] None []].
Proof. reflexivity. Qed.

End Styles.

(* ================================================================== *)
(** * More on post-processing *)
(* ================================================================== *)

Module PostProcessMore.

Import PostProcess.

Section Classes.

Variable _classesToPreserve : list jsstring.

(** The [class] attribute of the node, if it has one, is not empty and
    lists preserved classes only. *)
Definition only_preserved_classes (n : Node) : bool :=
  match getAttribute n "class" with
  | None => true
  | Some v =>
      bool_decide (v <> [])
      && forallb (fun cls => bool_decide (cls ∈ _classesToPreserve))
                 (split_spaces v)
  end.

Lemma only_preserved_after a t r kids :
  only_preserved_classes
    (Elem t (clean_attributes _classesToPreserve a) r kids) = true.
Proof.
  unfold only_preserved_classes, getAttribute. cbn [attributes].
  destruct (clean_attributes_cases _classesToPreserve a) as [[_ ->]|[Hne ->]].
  - by rewrite lookup_remove_attr_eq.
  - rewrite lookup_set_attr_eq. apply andb_true_iff. split.
    + by apply bool_decide_eq_true.
    + unfold preserved_classes in *.
      set (keep := fun cls => bool_decide (cls ∈ _classesToPreserve)) in *.
      rewrite (split_join_filter keep).
      * apply forallb_forall. intros cls Hin. by apply filter_In in Hin as [_ ?].
      * intros Hnil. apply Hne. by rewrite Hnil.
Qed.

End Classes.

(** X10. After class cleaning, every [class] attribute left in the tree
    is not empty and lists classes of [classesToPreserve] only (none is
    left when that list is empty); the text and the other attributes of
    the element are as they were; and cleaning again changes nothing. *)
Theorem cleaned_classes_are_preserved_ones (_classesToPreserve : list jsstring)
    (node : Node) :
  let cleaned := _cleanClasses _classesToPreserve node in
  all_nodes (only_preserved_classes _classesToPreserve) cleaned = true
  /\ textContent cleaned = textContent node
  /\ tagName cleaned = tagName node
  /\ (forall name, name <> "class"%string ->
        getAttribute cleaned name = getAttribute node name)
  /\ _cleanClasses _classesToPreserve cleaned = cleaned
  /\ (_classesToPreserve = [] ->
      all_nodes (fun k => bool_decide (getAttribute k "class" = None)) cleaned
      = true).
Proof.
  cbv zeta. split_and!.
  - induction node as [s|t a r kids IH] using node_induction; [done|].
    rewrite cleanClasses_unfold. cbn [all_nodes].
    rewrite only_preserved_after. cbn [andb].
    induction IH as [|k kids Hk _ IHkids]; [done|].
    cbn [map forallb]. by rewrite Hk, IHkids.
  - induction node as [s|t a r kids IH] using node_induction; [done|].
    rewrite cleanClasses_unfold. cbn [textContent].
    induction IH as [|k kids Hk _ IHkids]; [done|].
    cbn [map flat_map]. by rewrite Hk, IHkids.
  - by destruct node.
  - destruct node as [s|t a r kids]; [done|]. intros name Hname.
    rewrite cleanClasses_unfold. unfold getAttribute. cbn [attributes].
    by apply lookup_clean_attributes.
  - apply cleanClasses_idempotent.
  - intros ->. induction node as [s|t a r kids IH] using node_induction;
      [done|].
    rewrite cleanClasses_unfold. cbn [all_nodes]. apply andb_true_iff. split.
    + apply bool_decide_eq_true. unfold getAttribute. cbn [attributes].
      destruct (clean_attributes_cases [] a) as [[_ ->]|[Hne _]];
        [apply lookup_remove_attr_eq|].
      exfalso. apply Hne. unfold preserved_classes.
      generalize (split_spaces (default [] (lookup_attr "class" a))).
      intros l. assert (Hl : List.filter
        (fun cls : jsstring => bool_decide (cls ∈ ([] : list jsstring))) l = []).
      { induction l as [|x l IHl]; [done|]. cbn [List.filter].
        rewrite bool_decide_eq_false_2; [done|]. apply not_elem_of_nil. }
      by rewrite Hl.
    + induction IH as [|k kids Hk _ IHkids]; [done|].
      cbn [map forallb]. by rewrite Hk, IHkids.
Qed.

Section Uris.

Variables baseURI documentURI : jsstring.
Variable URL_href : jsstring -> jsstring -> completion jsstring.

Lemma fix_uris_textContent n :
  textContent (fix_uris baseURI documentURI URL_href n) = textContent n.
Proof.
  induction n as [s|t a r kids IH] using node_induction; [done|].
  cbn [fix_uris].
  assert (Hkids : flat_map textContent
                    (map (fix_uris baseURI documentURI URL_href) kids)
                  = flat_map textContent kids).
  { induction IH as [|k kids Hk _ IHkids]; [done|].
    cbn [map flat_map]. by rewrite Hk, IHkids. }
  destruct (is_javascript_link t a); [|done].
  destruct kids as [|[s|t' a' r' kids'] [|k2 kids]]; try done.
  cbn. by rewrite app_nil_r.
Qed.

End Uris.

(** X11. Fixing the relative URIs of an article changes none of its text,
    whatever the URL constructor gives and with [javascript:] links
    replaced; the article element itself keeps its tag and its
    attributes. *)
Theorem fixRelativeUris_keeps_the_text (baseURI documentURI : jsstring)
    (URL_href : jsstring -> jsstring -> completion jsstring)
    (articleContent : Node) :
  let fixed := _fixRelativeUris baseURI documentURI URL_href articleContent in
  textContent fixed = textContent articleContent
  /\ tagName fixed = tagName articleContent
  /\ attributes fixed = attributes articleContent
  /\ length (childNodes fixed) = length (childNodes articleContent).
Proof.
  destruct articleContent as [s|t a r kids]; [done|]. cbn zeta.
  cbn [_fixRelativeUris textContent tagName attributes childNodes].
  split_and!; try done; [|by rewrite length_map].
  induction kids as [|k kids IH]; [done|].
  cbn [map flat_map]. by rewrite fix_uris_textContent, IH.
Qed.

(** X12. When the URL constructor leaves the URLs it returns as they are,
    a URI that was made absolute is left as it is when it is made
    absolute again. *)
Theorem toAbsoluteURI_idempotent (baseURI documentURI : jsstring)
    (URL_href : jsstring -> jsstring -> completion jsstring) (uri : jsstring) :
  (forall u v, URL_href u baseURI = Normal v -> URL_href v baseURI = Normal v) ->
  toAbsoluteURI baseURI documentURI URL_href
    (toAbsoluteURI baseURI documentURI URL_href uri)
  = toAbsoluteURI baseURI documentURI URL_href uri.
Proof.
  intros Hurl.
  assert (Hvalue : forall u,
    toAbsoluteURI baseURI documentURI URL_href u
    = if jsstring_eqb baseURI documentURI
         && jsstring_eqb (Uris.charAt u 0) (lit "#")
      then u
      else match URL_href u baseURI with
           | Normal v => v
           | Thrown _ => u
           end).
  { intros u. unfold toAbsoluteURI, Uris.toAbsoluteURI, try_return.
    destruct (_ && _); [done|]. by destruct (URL_href u baseURI). }
  rewrite (Hvalue uri).
  destruct (jsstring_eqb baseURI documentURI
            && jsstring_eqb (Uris.charAt uri 0) (lit "#")) eqn:Hhash.
  { by rewrite Hvalue, Hhash. }
  destruct (URL_href uri baseURI) as [v|ex] eqn:Hv.
  - rewrite Hvalue, (Hurl uri v Hv).
    by destruct (jsstring_eqb baseURI documentURI
                 && jsstring_eqb (Uris.charAt v 0) (lit "#")).
  - by rewrite Hvalue, Hhash, Hv.
Qed.

Lemma toAbsoluteURI_idempotent_witness :
  toAbsoluteURI (lit "http://x.test/") (lit "http://x.test/") sample_URL
    (toAbsoluteURI (lit "http://x.test/") (lit "http://x.test/") sample_URL
       (lit "a/b.html"))
  = lit "http://x.test/a/b.html".
Proof.
  rewrite (toAbsoluteURI_idempotent (lit "http://x.test/")
             (lit "http://x.test/") sample_URL (lit "a/b.html")).
  - reflexivity.
  - intros u v. unfold sample_URL. destruct u as [|c u]; [done|].
    intros Hv.
    assert (Hv' : v = if startsWith (lit "http") (c :: u) then c :: u
                      else lit "http://x.test/" ++ c :: u) by congruence.
    rewrite Hv'. destruct (startsWith (lit "http") (c :: u)) eqn:E.
    + by rewrite E.
    + reflexivity.
Defined.

End PostProcessMore.

(* ================================================================== *)
(** * More on the metadata ([_getArticleMetadata], [_getJSONLD]) *)
(* ================================================================== *)

Module MetadataMore.

Import Metadata.

Infix "||" := Metadata.or : js_scope.
Local Open Scope js_scope.

(** ** The author of the JSON-LD *)

(** What [JSON.parse] returns; the fields of an object have distinct
    keys. *)
Inductive JSON : Type :=
| JNull
| JBool (b : bool)
| JNumber (q : Q)
| JString (s : jsstring)
| JArray (items : list JSON)
| JObject (fields : list (jsstring * JSON)).

(** Truthiness of a value that may be [undefined]. *)
Definition json_truthy (v : option JSON) : bool :=
  match v with
  | None | Some JNull | Some (JBool false) => false
  | Some (JNumber q) => negb (Qeq_bool q 0)
  | Some (JString s) => match s with [] => false | _ :: _ => true end
  | Some _ => true
  end.

(** [v.name] for a value that is neither [null] nor [undefined]: only an
    object can have the property. *)
Definition name (v : JSON) : option JSON :=
  match v with
  | JObject fields => snd <$> List.find (fun kv => jsstring_eqb (fst kv) (lit "name")) fields
  | _ => None
  end.

(** [typeof v.name === "string"], with the string. *)
Definition string_name (v : JSON) : option jsstring :=
  match name v with
  | Some (JString s) => Some s
  | _ => None
  end.

(** [pieces.join(", ")] *)
Fixpoint join_comma (pieces : list jsstring) : jsstring :=
  match pieces with
  | [] => []
  | [p] => p
  | p :: pieces' => p ++ lit ", " ++ join_comma pieces'
  end.

(** The byline that the author of the JSON-LD gives, if it gives one:
    [author] is [parsed.author]. *)
Definition jsonld_byline (author : option JSON) : option jsstring :=
  if json_truthy author then
    match author with
    | Some author =>
        match string_name author with
        | Some s => Some (trim s)
        | None =>
            match author with
            | JArray (first :: others) =>         (* Array.isArray(...) *)
                if json_truthy (Some first)
                   && bool_decide (is_Some (string_name first))
                then
                  Some (join_comma
                          (trim <$>
                             omap (fun author =>
                                     if json_truthy (Some author)
                                     then string_name author else None)
                                  (first :: others)))
                else None
            | _ => None
            end
        end
    | None => None
    end
  else None.

(** X14. An author object gives its name, trimmed.  An array of authors
    gives a byline only when its first entry has a name, whatever the
    other entries have: then the names of the entries that have one, each
    trimmed, in their order and joined by a comma and a space.  An author
    that is a plain string gives no byline. *)
Theorem jsonld_byline_from_authors :
  (forall author s, string_name author = Some s ->
     jsonld_byline (Some author) = Some (trim s))
  /\ (forall first others,
        string_name first = None ->
        jsonld_byline (Some (JArray (first :: others))) = None)
  /\ (forall first others s,
        string_name first = Some s ->
        jsonld_byline (Some (JArray (first :: others)))
        = Some (join_comma (trim <$> omap string_name (first :: others))))
  /\ (forall s, jsonld_byline (Some (JString s)) = None)
  /\ jsonld_byline None = None
  /\ jsonld_byline (Some (JArray [])) = None.
Proof.
  assert (Hobj : forall v s, string_name v = Some s -> json_truthy (Some v) = true).
  { intros v s. unfold string_name, name. by destruct v. }
  assert (Hfilter : forall l : list JSON,
    omap (fun author => if json_truthy (Some author)
                        then string_name author else None) l
    = omap string_name l).
  { induction l as [|x l IH]; [done|]. cbn [omap list_omap].
    rewrite IH. destruct (string_name x) as [s|] eqn:E.
    - by rewrite (Hobj x s E).
    - by destruct (json_truthy (Some x)). }
  assert (Harray : forall first others,
    jsonld_byline (Some (JArray (first :: others)))
    = if json_truthy (Some first)
         && bool_decide (is_Some (string_name first))
      then Some (join_comma
                   (trim <$>
                      omap (fun author => if json_truthy (Some author)
                                          then string_name author else None)
                           (first :: others)))
      else None) by reflexivity.
  split_and!.
  - intros author s Hs. unfold jsonld_byline.
    by rewrite (Hobj author s Hs), Hs.
  - intros first others Hnone. rewrite Harray, Hnone.
    rewrite bool_decide_eq_false_2 by (by intros [? ?]).
    by rewrite andb_false_r.
  - intros first others s Hs.
    rewrite Harray, Hfilter, (Hobj first s Hs), Hs.
    by rewrite bool_decide_eq_true_2.
  - intros s. unfold jsonld_byline. cbn. by destruct s.
  - done.
  - done.
Qed.

(** [{"author": [{"name": " Ann "}, "Bob", {"name": "Cy"}]}] *)
Lemma jsonld_byline_from_authors_witness :
  jsonld_byline
    (Some (JArray [JObject [(lit "name", JString (lit " Ann "))];
                   JString (lit "Bob");
                   JObject [(lit "name", JString (lit "Cy"))]]))
  = Some (lit "Ann, Cy").
Proof.
  rewrite (proj1 (proj2 (proj2 jsonld_byline_from_authors))
             (JObject [(lit "name", JString (lit " Ann "))])
             [JString (lit "Bob"); JObject [(lit "name", JString (lit "Cy"))]]
             (lit " Ann ") eq_refl).
  reflexivity.
Defined.

End MetadataMore.

(* ================================================================== *)
(** * More on the title of the article *)
(* ================================================================== *)

Module TitleMore.

Import Title.

Local Open Scope Z_scope.

Lemma candidate_origTitle doc :
  snd (fst (candidate doc)) = trim (title doc).
Proof.
  unfold candidate. cbv zeta.
  repeat match goal with
         | |- context [if ?b then _ else _] => destruct b
         | |- context [match hOnes doc with _ => _ end] =>
             destruct (hOnes doc) as [|? [|? ?]]
         end; reflexivity.
Qed.

Lemma candidate_hierarchical doc :
  snd (candidate doc) = true ->
  test hierarchicalSeparators (trim (title doc)) = true.
Proof.
  unfold candidate. cbv zeta.
  destruct (test titleSeparators (trim (title doc))); [done|].
  repeat match goal with
         | |- context [if ?b then _ else _] => destruct b
         | |- context [match hOnes doc with _ => _ end] =>
             destruct (hOnes doc) as [|? [|? ?]]
         end; done.
Qed.

(** X15. The title that is returned is the title of the document,
    trimmed, or has more than four words, or has exactly one word less
    than the title without its separators, which then had a hierarchical
    separator. *)
Theorem short_titles_are_not_made_up (doc : Document) :
  let result := _getArticleTitle doc in
  let origTitle := trim (title doc) in
  result = origTitle
  \/ 4 < wordCount result
  \/ (test hierarchicalSeparators origTitle = true
      /\ wordCount result
         = wordCount (removeAll titleSeparators origTitle) - 1).
Proof.
  cbv zeta. unfold _getArticleTitle.
  pose proof (candidate_origTitle doc) as Horig.
  pose proof (candidate_hierarchical doc) as Hhier.
  destruct (candidate doc) as [[curTitle origTitle] hier].
  cbn [fst snd] in Horig, Hhier. subst origTitle.
  unfold validate. cbv zeta.
  set (cur := normalize (trim curTitle)) in *.
  destruct (Z.leb_spec (wordCount cur) 4) as [Hle|Hgt];
    [|right; left; cbn; lia].
  destruct hier; cbn [negb orb andb].
  - destruct (Z.eqb_spec (wordCount cur)
                (wordCount (removeAll titleSeparators (trim (title doc))) - 1))
      as [Heq|Hne]; cbn [negb fst]; [|by left].
    right; right. split; [by apply Hhier|done].
  - by left.
Qed.

(** X16. For a document whose trimmed title has no separator between
    spaces and no colon followed by a space: a title of 15 to 150
    characters is returned as it is if it has at most four words, and
    with its white space normalized otherwise; a shorter or longer title
    is replaced by the text of the only [h1] of the document only if that
    text has more than four words. *)
Theorem title_without_separators (doc : Document) :
  let origTitle := trim (title doc) in
  test titleSeparators origTitle = false ->
  includes (lit ": ") origTitle = false ->
  let chosen :=
    if (150 <? Z.of_nat (length origTitle))
       || (Z.of_nat (length origTitle) <? 15)
    then match hOnes doc with
         | [hOne] => hOne
         | _ => origTitle
         end
    else origTitle in
  _getArticleTitle doc
  = if wordCount (normalize (trim chosen)) <=? 4 then origTitle
    else normalize (trim chosen).
Proof.
  cbv zeta. intros Hsep Hcolon.
  unfold _getArticleTitle, candidate. cbv zeta. rewrite Hsep, Hcolon.
  destruct ((150 <? Z.of_nat (length (trim (title doc))))
            || (Z.of_nat (length (trim (title doc))) <? 15)).
  - destruct (hOnes doc) as [|hOne [|? ?]]; unfold validate; cbv zeta;
      cbn [negb orb]; rewrite andb_true_r;
      by destruct (wordCount _ <=? 4).
  - unfold validate. cbv zeta. cbn [negb orb]. rewrite andb_true_r.
    by destruct (wordCount _ <=? 4).
Qed.

(** The title [Home] and the only heading [Ten things you did not know]. *)
Lemma title_without_separators_witness :
  _getArticleTitle
    {| title := lit " Home "; headings := [];
       hOnes := [lit "Ten things you did not know"] |}
  = lit "Ten things you did not know"
  /\ _getArticleTitle
       {| title := lit " Home "; headings := [];
          hOnes := [lit "Ten things"] |}
     = lit "Home".
Proof.
  split.
  - rewrite (title_without_separators
               {| title := lit " Home "; headings := [];
                  hOnes := [lit "Ten things you did not know"] |}
               eq_refl eq_refl).
    by vm_compute.
  - rewrite (title_without_separators
               {| title := lit " Home "; headings := [];
                  hOnes := [lit "Ten things"] |} eq_refl eq_refl).
    by vm_compute.
Defined.

End TitleMore.

(* ================================================================== *)
(** * The tags of the assembled article *)
(* ================================================================== *)

Module SiblingsMore.

Import Siblings.

Lemma copy_attributes_tag from n :
  tagName (Retag.copy_attributes from n) = tagName n
  /\ childNodes (Retag.copy_attributes from n) = childNodes n.
Proof.
  revert n. induction from as [|attr from IH]; intros n; [done|].
  cbn [Retag.copy_attributes]. destruct (IH (Retag.setAttributeNode n attr))
    as [-> ->]. by destruct n.
Qed.

Lemma setNodeTag_tag b t a r kids tag :
  tagName (Retag._setNodeTag b (Elem t a r kids) tag)
  = Some (toUpperCase tag)
  /\ childNodes (Retag._setNodeTag b (Elem t a r kids) tag) = kids.
Proof.
  unfold Retag._setNodeTag. destruct b; [done|].
  unfold Retag.createElement. rewrite Retag.move_children_spec.
  cbn [app]. destruct (copy_attributes_tag a
    match r with
    | Some _ => Retag.set_readability (Elem (toUpperCase tag) [] None kids) r
    | None => Elem (toUpperCase tag) [] None kids
    end) as [-> ->].
  by destruct r.
Qed.

Lemma alter_to_div_tag b n :
  isElement n = true ->
  tagName (alter_to_div b n) ∈ Some <$> ALTER_TO_DIV_EXCEPTIONS
  /\ childNodes (alter_to_div b n) = childNodes n.
Proof.
  destruct n as [s|t a r kids]; [done|]. intros _. unfold alter_to_div.
  case_bool_decide as Hin; cbn [negb]; [done|].
  destruct (setNodeTag_tag b t a r kids "DIV") as [-> ->].
  split; [|done]. apply (bool_decide_unpack _). reflexivity.
Qed.

(** X17. The children of the assembled article are the appended siblings
    with their child nodes as they were, and each has one of the tags
    [DIV], [ARTICLE], [SECTION], [P], [OL] and [UL]: a sibling with
    another tag has become a [DIV]. *)
Theorem assembled_children_are_blocks (_docJSDOMParser : bool)
    (topCandidate : Obj) (r : Readability) (siblings : list Obj) :
  readability (node topCandidate) = Some r ->
  Forall (fun o => isElement (node o) = true) siblings ->
  exists articleContent remaining,
    grab_siblings _docJSDOMParser topCandidate (length siblings) siblings
    = Finished articleContent remaining
    /\ Forall (fun k => tagName k ∈ Some <$> ALTER_TO_DIV_EXCEPTIONS)
              articleContent
    /\ childNodes <$> articleContent
       = (fun o => childNodes (node o))
           <$> List.filter (append topCandidate (contentScore r)) siblings.
Proof.
  intros Hr Helems. unfold grab_siblings, assemble. rewrite Hr.
  pose proof (loop_spec _docJSDOMParser topCandidate (contentScore r) []
                siblings [] (length siblings) (le_n _)) as Hloop.
  cbn [app length] in Hloop. change (Z.of_nat 0) with 0%Z in Hloop.
  rewrite Hloop. clear Hloop.
  exists (map (fun o => alter_to_div _docJSDOMParser (node o))
            (List.filter (append topCandidate (contentScore r)) siblings)),
    (List.filter (fun o => negb (append topCandidate (contentScore r) o))
       siblings).
  split; [done|].
  induction Helems as [|o siblings Ho _ [IH1 IH2]]; [by split|].
  cbn [List.filter]. destruct (append topCandidate (contentScore r) o);
    [|by split].
  cbn [map fmap list_fmap].
  destruct (alter_to_div_tag _docJSDOMParser (node o) Ho) as [Htag Hkids].
  split; [by constructor|]. cbn [fmap list_fmap] in IH2. by rewrite Hkids, IH2.
Qed.

Lemma assembled_children_are_blocks_witness :
  exists articleContent remaining,
    grab_siblings false top (length family) family
    = Finished articleContent remaining
    /\ Forall (fun k => tagName k ∈ Some <$> ALTER_TO_DIV_EXCEPTIONS)
              articleContent
    /\ childNodes <$> articleContent
       = (fun o => childNodes (node o))
           <$> List.filter (append top 100) family.
Proof.
  apply (assembled_children_are_blocks false top {| contentScore := 100 |}
           family eq_refl).
  repeat constructor.
Defined.

End SiblingsMore.

(* ================================================================== *)
(** * The attempt that the retry controller falls back to *)
(* ================================================================== *)

Module Fallback.

Local Open Scope Z_scope.

Section Sorting.

Context {A : Type} (len : A -> Z).



End Sorting.



End Fallback.

(* ================================================================== *)
(** * What the simplification of nested elements leaves *)
(* ================================================================== *)

Module SimplifyMore.

Import PostProcess.

Section Simplify.

Variable hasContent : jsstring -> bool.

Lemma textContent_member c kids :
  c ∈ kids -> sublist (textContent c) (flat_map textContent kids).
Proof.
  induction kids as [|k kids IH]; intros Hin; [by apply elem_of_nil in Hin|].
  cbn [flat_map]. apply elem_of_cons in Hin as [->|Hin].
  - by apply sublist_inserts_r.
  - by apply sublist_inserts_l, IH.
Qed.

Lemma simplify_node_sublist n :
  forall inherited n',
    simplify_node hasContent inherited n = Some n' ->
    sublist (textContent n') (textContent n).
Proof.
  induction n as [s|t a r kids IH] using node_induction;
    intros inherited n'; [by intros [= <-]|].
  rewrite simplify_node_elem. cbv zeta.
  assert (Hdescend :
    sublist (flat_map textContent (omap (simplify_node hasContent []) kids))
            (flat_map textContent kids)).
  { clear -IH. induction IH as [|k kids Hk _ IHkids]; [done|].
    cbn [omap list_omap flat_map].
    destruct (simplify_node hasContent [] k) as [k'|] eqn:E.
    - cbn [flat_map]. apply sublist_app; [by apply (Hk [] k')|done].
    - by apply sublist_inserts_l. }
  destruct (is_wrapper_candidate _); [|by intros [= <-]].
  destruct (_isElementWithoutContent _); [done|].
  destruct (has_single_wrapper _ _); [|by intros [= <-]].
  destruct (children (Elem t (inherit inherited a) r kids)) as [|c l] eqn:Ech;
    [by intros [= <-]|].
  assert (Hin : c ∈ kids).
  { apply list_elem_of_In.
    apply (proj1 (filter_In isElement c kids)).
    unfold children in Ech. cbn [childNodes] in Ech. rewrite Ech. by left. }
  intros Hc. rewrite Forall_forall in IH.
  transitivity (textContent c);
    [by apply (IH c Hin (inherit inherited a) n')|].
  by apply textContent_member.
Qed.

End Simplify.

(** X19. Simplifying the nested elements only takes nodes away: the text
    of the article afterwards is the text it had with some of its
    characters left out, in the same order; the article element itself
    keeps its tag and attributes. *)
Theorem simplification_only_removes (hasContent : jsstring -> bool)
    (articleContent : Node) :
  let simplified := _simplifyNestedElements hasContent articleContent in
  sublist (textContent simplified) (textContent articleContent)
  /\ tagName simplified = tagName articleContent
  /\ attributes simplified = attributes articleContent
  /\ (length (childNodes simplified) <= length (childNodes articleContent))%nat.
Proof.
  destruct articleContent as [s|t a r kids]; [done|]. cbn zeta.
  cbn [_simplifyNestedElements textContent tagName attributes childNodes].
  split_and!; try done.
  - induction kids as [|k kids IH]; [done|].
    cbn [omap list_omap flat_map].
    destruct (simplify_node hasContent [] k) as [k'|] eqn:E.
    + cbn [flat_map]. apply sublist_app; [|done].
      by apply (simplify_node_sublist hasContent k [] k').
    + by apply sublist_inserts_l.
  - induction kids as [|k kids IH]; [done|].
    cbn [omap list_omap]. destruct (simplify_node hasContent [] k);
      cbn [length]; lia.
Qed.

End SimplifyMore.

(* ================================================================== *)
(** * The URLs of a [srcset] *)
(* ================================================================== *)

Module Srcset.

Import PostProcess.

(** ** A [srcset] in its usual form *)

(** A URL: not empty and without white space. *)
Definition is_url (u : jsstring) : bool :=
  match u with
  | [] => false
  | _ :: _ => forallb (fun c => negb (isWhiteSpace c)) u
  end.

(** A descriptor as the pattern sees it: white space, digits and dots,
    and [x] or [w]. *)
Record Descriptor := {
  spaces : jsstring;
  digits : jsstring;
  unit_ : N
}.

Definition is_descriptor (d : Descriptor) : bool :=
  match spaces d, digits d with
  | _ :: _, _ :: _ =>
      forallb isWhiteSpace (spaces d) && forallb isDigitOrDot (digits d)
      && ((unit_ d =? 0x78)%N || (unit_ d =? 0x77)%N)
  | _, _ => false
  end.

Definition descriptor_text (d : Descriptor) : jsstring :=
  spaces d ++ digits d ++ [unit_ d].

(** The candidates, each a URL with its descriptor, separated by a comma
    and a space; [f] is applied to the URLs. *)
Fixpoint render (f : jsstring -> jsstring)
  (candidates : list (jsstring * Descriptor)) : jsstring :=
  match candidates with
  | [] => []
  | [(u, d)] => f u ++ descriptor_text d
  | (u, d) :: candidates' =>
      f u ++ descriptor_text d ++ lit ", " ++ render f candidates'
  end.

(** ** Properties *)

Lemma take_drop_while p a b :
  forallb p a = true ->
  match b with [] => True | c :: _ => p c = false end ->
  take_while p (a ++ b) = a /\ drop_while p (a ++ b) = b.
Proof.
  intros Ha Hb. induction a as [|x a IH]; cbn [app].
  - destruct b as [|c b]; [done|]. cbn. by rewrite Hb.
  - cbn [forallb] in Ha. apply andb_true_iff in Ha as [Hx Ha].
    cbn [take_while drop_while]. rewrite Hx.
    destruct (IH Ha) as [-> ->]. done.
Qed.

Lemma digit_is_no_space c : isDigitOrDot c = true -> isWhiteSpace c = false.
Proof.
  unfold isDigitOrDot, isWhiteSpace.
  intros [[H1 H2]%andb_true_iff| ->%N.eqb_eq]%orb_true_iff; [|done].
  apply N.leb_le in H1, H2. apply orb_false_iff. split.
  - apply bool_decide_eq_false. rewrite !elem_of_cons, elem_of_nil.
    intros H. repeat destruct H as [->|H]; try lia.
  - apply andb_false_iff. left. apply N.leb_gt. lia.
Qed.

Lemma unit_is_no_digit c :
  (c =? 0x78)%N || (c =? 0x77)%N = true -> isDigitOrDot c = false.
Proof. by intros [->%N.eqb_eq| ->%N.eqb_eq]%orb_true_iff. Qed.

(** The match at a candidate that the end of the text or a comma
    follows. *)
Lemma match_candidate u d tail :
  is_url u = true -> is_descriptor d = true ->
  match tail with
  | [] => True
  | c :: _ => c = 0x2C%N
  end ->
  match_srcsetUrl (u ++ descriptor_text d ++ tail)
  = Some (u, Some (descriptor_text d),
          match tail with [] => [] | c :: _ => [c] end,
          match tail with [] => [] | _ :: after => after end).
Proof.
  intros Hu Hd Htail. unfold is_url in Hu. destruct u as [|u0 u']; [done|].
  unfold is_descriptor in Hd. unfold descriptor_text.
  destruct d as [sp dg un]. cbn [spaces digits unit_] in *.
  destruct sp as [|s0 sp']; [done|]. destruct dg as [|d0 dg']; [done|].
  apply andb_true_iff in Hd as [[Hsp Hdg]%andb_true_iff Hun].
  assert (Hs0 : isWhiteSpace s0 = true)
    by (cbn [forallb] in Hsp; by apply andb_true_iff in Hsp as [? _]).
  assert (Hd0 : isDigitOrDot d0 = true)
    by (cbn [forallb] in Hdg; by apply andb_true_iff in Hdg as [? _]).
  unfold match_srcsetUrl.
  destruct (take_drop_while (fun c => negb (isWhiteSpace c)) (u0 :: u')
              ((s0 :: sp') ++ (d0 :: dg') ++ [un] ++ tail) Hu) as [Hrun Hrest].
  { cbn [app]. by rewrite Hs0. }
  rewrite <- !app_assoc. cbn [app] in Hrun, Hrest |- *. cbv zeta.
  cbn [app] in Hrun, Hrest. rewrite Hrun, Hrest.
  unfold match_descriptor.
  destruct (take_drop_while isWhiteSpace (s0 :: sp')
              ((d0 :: dg') ++ [un] ++ tail) Hsp) as [Hspaces Hs1].
  { cbn [app]. by apply digit_is_no_space. }
  cbn [app] in Hspaces, Hs1. cbv zeta. rewrite Hspaces, Hs1.
  destruct (take_drop_while isDigitOrDot (d0 :: dg') ([un] ++ tail) Hdg)
    as [Hdigits Hafter].
  { cbn [app]. by apply unit_is_no_digit. }
  cbn [app] in Hdigits, Hafter. rewrite Hdigits, Hafter, Hun.
  unfold match_delimiter. destruct tail as [|c after].
  - reflexivity.
  - subst c. reflexivity.
Qed.

Lemma no_match_at_space c s :
  isWhiteSpace c = true -> match_srcsetUrl (c :: s) = None.
Proof. intros Hc. unfold match_srcsetUrl. cbn. by rewrite Hc. Qed.

Lemma length_render_candidate (f : jsstring -> jsstring) u d :
  (length (descriptor_text d) <= length (f u ++ descriptor_text d))%nat.
Proof. rewrite length_app. lia. Qed.

Lemma replace_candidates fuel (f : jsstring -> jsstring) candidates :
  Forall (fun c => is_url (fst c) = true /\ is_descriptor (snd c) = true)
         candidates ->
  (length (render (fun u => u) candidates) <= fuel)%nat ->
  replace_srcsetUrl fuel (fun p1 p2 p3 => f p1 ++ default [] p2 ++ p3)
    (render (fun u => u) candidates)
  = render f candidates.
Proof.
  intros Hall. revert fuel.
  induction Hall as [|[u d] candidates [Hu Hd] Hall IH]; intros fuel Hfuel.
  { by destruct fuel. }
  cbn [fst snd] in Hu, Hd.
  assert (Hne : exists c s, u = c :: s) by (destruct u; [done|by eexists _, _]).
  destruct Hne as (c & s & ->).
  destruct candidates as [|next candidates].
  - cbn [render] in *. destruct fuel as [|fuel]; [cbn in Hfuel; lia|].
    pose proof (match_candidate (c :: s) d [] Hu Hd I) as Hm.
    rewrite app_nil_r in Hm.
    cbn [replace_srcsetUrl app]. cbn [app] in Hm. rewrite Hm.
    cbn [default from_option id].
    destruct fuel; cbn [replace_srcsetUrl]; by rewrite !app_nil_r.
  - change (render (fun u => u) (((c :: s), d) :: next :: candidates))
      with ((c :: s) ++ descriptor_text d
            ++ 0x2C%N :: 0x20%N :: render (fun u => u) (next :: candidates))
      in *.
    change (render f (((c :: s), d) :: next :: candidates))
      with (f (c :: s) ++ descriptor_text d
            ++ 0x2C%N :: 0x20%N :: render f (next :: candidates)).
    destruct fuel as [|fuel]; [cbn in Hfuel; lia|].
    pose proof (match_candidate (c :: s) d
                  (0x2C%N :: 0x20%N :: render (fun u => u) (next :: candidates))
                  Hu Hd eq_refl) as Hm.
    cbn [replace_srcsetUrl app]. cbn [app] in Hm. rewrite Hm.
    cbn [default from_option id].
    assert (Hlen : (S (length (render (fun u => u) (next :: candidates)))
                    <= fuel)%nat).
    { cbn [app length] in Hfuel. rewrite !length_app in Hfuel.
      cbn [length] in Hfuel. lia. }
    destruct fuel as [|fuel]; [lia|].
    cbn [replace_srcsetUrl]. rewrite no_match_at_space by done.
    rewrite IH by lia. rewrite <- !app_assoc. done.
Qed.

(** X20. In a [srcset] of the usual form, URLs without white space, each
    followed by a descriptor and separated by a comma and a space, every
    URL is made absolute and everything else is left as it is. *)
Theorem srcset_urls_are_made_absolute (baseURI documentURI : jsstring)
    (URL_href : jsstring -> jsstring -> completion jsstring)
    (candidates : list (jsstring * Descriptor)) :
  Forall (fun c => is_url (fst c) = true /\ is_descriptor (snd c) = true)
         candidates ->
  fix_srcset baseURI documentURI URL_href (render (fun u => u) candidates)
  = render (toAbsoluteURI baseURI documentURI URL_href) candidates.
Proof.
  intros Hall. unfold fix_srcset. by apply replace_candidates.
Qed.

Lemma srcset_urls_are_made_absolute_witness :
  fix_srcset (lit "http://x.test/a/") (lit "http://x.test/a/") sample_URL
    (lit "small.jpg 1x, big.jpg 2.5x")
  = lit "http://x.test/a/small.jpg 1x, http://x.test/a/big.jpg 2.5x".
Proof.
  change (lit "small.jpg 1x, big.jpg 2.5x")
    with (render (fun u => u)
            [(lit "small.jpg",
              {| spaces := lit " "; digits := lit "1"; unit_ := 0x78 |});
             (lit "big.jpg",
              {| spaces := lit " "; digits := lit "2.5"; unit_ := 0x78 |})]).
  rewrite srcset_urls_are_made_absolute.
  - reflexivity.
  - repeat constructor.
Defined.

End Srcset.
